(** * Extension discovery, validation and filtering (mopidy/ext.py)

    A shallow embedding of [load_extensions], [validate_extensions] and
    [filter_enabled_extensions], and the properties stated about them.

    Python objects live in an object store indexed by identity, lists hold
    object identities, exceptions are explicit outcomes, and every logging
    call and every call of an entry point or extension hook is recorded in
    a trace.  Hooks are pure queries: what a hook does when called is a
    fixed outcome, it returns or it raises. *)

From stdpp Require Import gmap strings list fin_maps.

(** * The program *)

(** ** Exceptions and outcomes *)

(** The exception classes that the module names or that its operations can
    raise.  [PyException] stands for any other class (ImportError,
    VersionConflict, RuntimeError, ...). *)
Inductive exn :=
| DistributionNotFound (requirement : string)
| ExtensionError (message : string)
| KeyError (key : option string)
| ValueError (message : string)
| TypeError (message : string)
| AttributeError (attribute : string)
| PyException (class_name message : string).

(** What a call does: it returns a value or raises. *)
Inductive outcome (A : Type) :=
| Returns (a : A)
| Raises (e : exn).
Arguments Returns {A} a.
Arguments Raises {A} e.

Definition returns_normally {A} (o : outcome A) : Prop :=
  match o with Returns _ => True | Raises _ => False end.

(** ** Data model *)

(** An extension class: the class attributes of [Extension] (each is [None]
    in the base class), what calling the class does, and what the
    [validate_environment] hook does when called on an instance. *)
Record ExtensionClass := {
  dist_name : option string;
  ext_name : option string;
  version : option string;
  construct : outcome unit;
  validate_environment : outcome unit
}.

(** A registration record of [pkg_resources]: its name, what [require()]
    does, and what resolving its target does. *)
Record EntryPoint := {
  ep_name : string;
  ep_require : outcome unit;
  ep_resolve : outcome ExtensionClass
}.

(** An extension object: its class and its instance dictionary, which holds
    [entry_point] once [load_extensions] has attached it. *)
Record Instance := {
  class_of : ExtensionClass;
  entry_point : option EntryPoint
}.

(** Object identities. *)
Abbreviation oid := nat (only parsing).

(** Values passed as logging arguments. *)
Inductive pyval :=
| VNone
| VStr (s : string)
| VEntryPoint (ep : EntryPoint)
| VExn (e : exn).

Definition of_name (n : option string) : pyval :=
  match n with None => VNone | Some s => VStr s end.

Inductive level := DEBUG | INFO | WARNING.

(** [logger] is [logging.getLogger('mopidy.ext')]; calls written
    [logging.debug] and [logging.info] go to the root logger. *)
Inductive logger_name := RootLogger | MopidyExtLogger.

(** Observable events: logging calls and hook invocations. *)
Inductive event :=
| Log (lg : logger_name) (lvl : level) (fmt : string) (args : list pyval)
| CallLoad (ep : EntryPoint) (require : bool)
| CallConstruct (cls : ExtensionClass)
| CallRequire (ep : EntryPoint)
| CallValidateEnvironment (extension : oid).

(** ** The computation monad: object store, trace, exceptions *)

Record run (A : Type) := Run {
  heap_of : gmap nat Instance;
  trace_of : list event;
  outcome_of : outcome A
}.
Arguments Run {A} _ _ _.
Arguments heap_of {A} _.
Arguments trace_of {A} _.
Arguments outcome_of {A} _.

Definition M (A : Type) : Type := gmap nat Instance → run A.

Definition ret {A} (a : A) : M A := λ h, Run h [] (Returns a).

Definition raise {A} (e : exn) : M A := λ h, Run h [] (Raises e).

Definition bind {A B} (m : M A) (k : A → M B) : M B := λ h,
  match m h with
  | Run h1 t1 (Raises e) => Run h1 t1 (Raises e)
  | Run h1 t1 (Returns a) =>
      match k a h1 with
      | Run h2 t2 o => Run h2 (t1 ++ t2) o
      end
  end.

Global Instance M_ret : MRet M := @ret.
Global Instance M_bind : MBind M := λ A B k m, bind m k.

(** [try: ... except] reifies the outcome of the protected block; effects
    performed before a raise persist. *)
Definition catch {A} (m : M A) : M (outcome A) := λ h,
  match m h with
  | Run h1 t1 o => Run h1 t1 (Returns o)
  end.

Definition lift {A} (o : outcome A) : M A :=
  match o with Returns a => ret a | Raises e => raise e end.

Definition emit (ev : event) : M unit := λ h, Run h [ev] (Returns tt).

Definition log (lg : logger_name) (lvl : level) (fmt : string)
    (args : list pyval) : M unit :=
  emit (Log lg lvl fmt args).

(** Dereferencing.  A Python list element always denotes a live object; the
    error branch is only reachable from stores that violate this. *)
Definition get (o : oid) : M Instance := λ h,
  match h !! o with
  | Some inst => Run h [] (Returns inst)
  | None => Run h [] (Raises (PyException "ReferenceError" "dangling object"))
  end.

(** Allocation of a new object at an unused identity. *)
Definition alloc (inst : Instance) : M oid := λ h,
  let o := fresh (dom h) in Run (<[o := inst]> h) [] (Returns o).

(** [extension.entry_point = entry_point] *)
Definition setattr_entry_point (o : oid) (ep : EntryPoint) : M unit := λ h,
  match h !! o with
  | Some inst =>
      Run (<[o := {| class_of := class_of inst; entry_point := Some ep |}]> h)
          [] (Returns tt)
  | None => Run h [] (Raises (PyException "ReferenceError" "dangling object"))
  end.

(** [for x in xs: body], the loop body threading the local variables [s]. *)
Fixpoint for_in {A S} (xs : list A) (body : A → S → M S) (s : S) : M S :=
  match xs with
  | [] => ret s
  | x :: xs' => s' ← body x s; for_in xs' body s'
  end.

(** ** Operations of the collaborators *)

(** [entry_point.require()] *)
Definition entry_point_require (ep : EntryPoint) : M unit :=
  emit (CallRequire ep);; lift (ep_require ep).

(** [entry_point.load(require=...)]: [pkg_resources] first calls
    [self.require()] when [require] is true, then imports the target. *)
Definition entry_point_load (ep : EntryPoint) (require : bool)
    : M ExtensionClass :=
  (if require then entry_point_require ep else ret tt);;
  emit (CallLoad ep require);;
  lift (ep_resolve ep).

(** [extension_class()] *)
Definition instantiate (cls : ExtensionClass) : M oid :=
  emit (CallConstruct cls);;
  lift (construct cls);;
  alloc {| class_of := cls; entry_point := None |}.

(** [extension.validate_environment()] *)
Definition call_validate_environment (extension : oid) : M unit :=
  inst ← get extension;
  emit (CallValidateEnvironment extension);;
  lift (validate_environment (class_of inst)).

(** [extension.ext_name], [extension.dist_name], [extension.version]:
    attribute lookup on the instance resolves to the class attribute. *)
Definition getattr (attr : ExtensionClass → option string) (extension : oid)
    : M (option string) :=
  inst ← get extension; ret (attr (class_of inst)).

(** [extension.entry_point]: AttributeError when nothing was attached. *)
Definition getattr_entry_point (extension : oid) : M EntryPoint :=
  inst ← get extension;
  match entry_point inst with
  | Some ep => ret ep
  | None => raise (AttributeError "entry_point")
  end.

(** [', '.join(names)]: TypeError on the first item that is not a string. *)
Fixpoint strings_of (names : list (option string)) : outcome (list string) :=
  match names with
  | [] => Returns []
  | None :: _ => Raises (TypeError "sequence item: expected string, NoneType found")
  | Some s :: rest =>
      match strings_of rest with
      | Returns l => Returns (s :: l)
      | Raises e => Raises e
      end
  end.

Definition join (sep : string) (names : list (option string)) : outcome string :=
  match strings_of names with
  | Returns l => Returns (String.concat sep l)
  | Raises e => Raises e
  end.

(** [(e.ext_name for e in extensions)], consumed by [join]. *)
Fixpoint ext_names (extensions : list oid) : M (list (option string)) :=
  match extensions with
  | [] => ret []
  | e :: rest =>
      n ← getattr ext_name e; ns ← ext_names rest; ret (n :: ns)
  end.

(** [d[key]] on a dictionary with string keys: KeyError when absent (a
    [None] key is never present). *)
Definition getitem {V} (d : gmap string V) (key : option string) : M V :=
  match key with
  | Some k =>
      match d !! k with
      | Some v => ret v
      | None => raise (KeyError key)
      end
  | None => raise (KeyError key)
  end.

(** [x or 'none'] on strings. *)
Definition or_none (s : string) : string :=
  if decide (s = "") then "none" else s.

(** ** load_extensions *)

(** The body of the loop over the entry points. *)
Definition load_extension (entry_point : EntryPoint)
    (installed_extensions : list oid) : M (list oid) :=
  log MopidyExtLogger DEBUG "Loading entry point: %s" [VEntryPoint entry_point];;
  extension_class ← entry_point_load entry_point false;
  extension ← instantiate extension_class;
  setattr_entry_point extension entry_point;;
  let installed_extensions := installed_extensions ++ [extension] in
  d ← getattr dist_name extension;
  v ← getattr version extension;
  log MopidyExtLogger DEBUG "Loaded extension: %s %s" [of_name d; of_name v];;
  ret installed_extensions.

(** The registry enumeration [pkg_resources.iter_entry_points('mopidy.ext')]
    is ambient in the source and a parameter here. *)
Definition load_extensions (iter_entry_points : list EntryPoint)
    : M (list oid) :=
  installed_extensions ← for_in iter_entry_points load_extension [];
  names ← ext_names installed_extensions;
  joined ← lift (join ", " names);
  log RootLogger DEBUG "Discovered extensions: %s" [VStr joined];;
  ret installed_extensions.

(** ** validate_extensions *)

(** The body of the loop over the installed extensions; [continue] is the
    return of the unchanged list. *)
Definition validate_extension (extension : oid) (valid_extensions : list oid)
    : M (list oid) :=
  n ← getattr ext_name extension;
  log MopidyExtLogger DEBUG "Validating extension: %s" [of_name n];;
  ep ← getattr_entry_point extension;
  if decide (n ≠ Some (ep_name ep)) then
    log MopidyExtLogger WARNING
      "Disabled extension %(ep)s: entry point name (%(ep)s) does not match extension name (%(ext)s)"
      [VStr (ep_name ep); of_name n];;
    ret valid_extensions
  else
    r ← catch (entry_point_require ep);
    match r with
    | Raises (DistributionNotFound ex) =>
        log MopidyExtLogger INFO "Disabled extension %s: Dependency %s not found"
          [of_name n; VExn (DistributionNotFound ex)];;
        ret valid_extensions
    | Raises e => raise e
    | Returns _ =>
        r ← catch (call_validate_environment extension);
        match r with
        | Raises (ExtensionError message) =>
            log MopidyExtLogger INFO "Disabled extension %s: %s"
              [of_name n; VStr message];;
            ret valid_extensions
        | Raises e => raise e
        | Returns _ => ret (valid_extensions ++ [extension])
        end
    end.

Definition validate_extensions (installed_extensions : list oid)
    : M (list oid) :=
  valid_extensions ← for_in installed_extensions validate_extension [];
  names ← ext_names valid_extensions;
  joined ← lift (join ", " names);
  log MopidyExtLogger DEBUG "Valid extensions: %s" [VStr joined];;
  ret valid_extensions.

(** ** filter_enabled_extensions *)

Section Filter.

(** [config_lib.Boolean().deserialize]: the configuration subsystem is
    not part of this unit; the filter is stated for any deserializer. *)
Variable deserialize : string → outcome bool.

(** The body of the loop, threading the three local lists. *)
Definition filter_enabled_extension
    (raw_config : gmap string (gmap string string)) (extension : oid)
    (acc : list oid * list (option string) * list (option string))
    : M (list oid * list (option string) * list (option string)) :=
  let '(enabled_extensions, enabled_names, disabled_names) := acc in
  n ← getattr ext_name extension;
  section ← getitem raw_config n;
  enabled ← getitem section (Some "enabled");
  b ← lift (deserialize enabled);
  if b : bool then
    ret (enabled_extensions ++ [extension], enabled_names ++ [n], disabled_names)
  else
    ret (enabled_extensions, enabled_names, disabled_names ++ [n]).

Definition filter_enabled_loop
    (raw_config : gmap string (gmap string string)) (extensions : list oid)
    : M (list oid * list (option string) * list (option string)) :=
  for_in extensions (filter_enabled_extension raw_config) ([], [], []).

Definition filter_enabled_extensions
    (raw_config : gmap string (gmap string string)) (extensions : list oid)
    : M (list oid) :=
  acc ← filter_enabled_loop raw_config extensions;
  let '(enabled_extensions, enabled_names, disabled_names) := acc in
  en ← lift (join ", " enabled_names);
  log RootLogger INFO "Enabled extensions: %s" [VStr (or_none en)];;
  dn ← lift (join ", " disabled_names);
  log RootLogger INFO "Disabled extensions: %s" [VStr (or_none dn)];;
  ret enabled_extensions.

(** The startup sequence of the host application: discover, validate,
    filter by configuration. *)
Definition pipeline (iter_entry_points : list EntryPoint)
    (raw_config : gmap string (gmap string string)) : M (list oid) :=
  installed_extensions ← load_extensions iter_entry_points;
  valid_extensions ← validate_extensions installed_extensions;
  filter_enabled_extensions raw_config valid_extensions.

End Filter.

(** * Vocabulary of the properties *)

(** ** Views of the store and of a trace *)

Definition name_of (h : gmap nat Instance) (o : oid) : option string :=
  match h !! o with
  | Some inst => ext_name (class_of inst)
  | None => None
  end.

Definition live (h : gmap nat Instance) (l : list oid) : Prop :=
  ∀ o, o ∈ l → is_Some (h !! o).

(** The names of the extensions that a run returns, read in the store the
    run ends in; the exception when the run raises. *)
Definition enabled_names_of (r : run (list oid)) : outcome (list (option string)) :=
  match outcome_of r with
  | Returns l => Returns (name_of (heap_of r) <$> l)
  | Raises e => Raises e
  end.

(** The hook invocations of a trace, in order. *)
Definition is_call (ev : event) : bool :=
  match ev with Log _ _ _ _ => false | _ => true end.

Definition calls (t : list event) : list event := List.filter is_call t.

(** ** The validator's decision for one extension *)

Inductive reason := IdentityMismatch | DependencyNotFound | EnvironmentError.

Inductive verdict :=
| Accept
| Exclude (k : reason)
| Abort (e : exn).

(** The three checks in the order the specification lists them: the verdict
    on an extension object is the first violated rule, an unexpected
    exception, or acceptance. *)
Definition check (inst : Instance) : verdict :=
  match entry_point inst with
  | None => Abort (AttributeError "entry_point")
  | Some ep =>
      if decide (ext_name (class_of inst) ≠ Some (ep_name ep)) then
        Exclude IdentityMismatch
      else
        match ep_require ep with
        | Raises (DistributionNotFound _) => Exclude DependencyNotFound
        | Raises e => Abort e
        | Returns _ =>
            match validate_environment (class_of inst) with
            | Raises (ExtensionError _) => Exclude EnvironmentError
            | Raises e => Abort e
            | Returns _ => Accept
            end
        end
  end.

(** Each documented check on its own, independently of the others. *)
Definition fails_check (inst : Instance) (k : reason) : Prop :=
  match k with
  | IdentityMismatch =>
      ∃ ep, entry_point inst = Some ep ∧
            ext_name (class_of inst) ≠ Some (ep_name ep)
  | DependencyNotFound =>
      ∃ ep req, entry_point inst = Some ep ∧
                ep_require ep = Raises (DistributionNotFound req)
  | EnvironmentError =>
      ∃ msg, validate_environment (class_of inst) = Raises (ExtensionError msg)
  end.

(** The exclusion reason that a log record reports, if any. *)
Definition reason_of_event (ev : event) : option reason :=
  match ev with
  | Log MopidyExtLogger WARNING fmt _ =>
      if decide (fmt = "Disabled extension %(ep)s: entry point name (%(ep)s) does not match extension name (%(ext)s)")
      then Some IdentityMismatch else None
  | Log MopidyExtLogger INFO fmt _ =>
      if decide (fmt = "Disabled extension %s: Dependency %s not found")
      then Some DependencyNotFound
      else if decide (fmt = "Disabled extension %s: %s")
      then Some EnvironmentError else None
  | _ => None
  end.

Definition logged_reasons (t : list event) : list reason :=
  omap reason_of_event t.

Definition accepted (i : Instance) : bool :=
  match check i with Accept => true | _ => false end.

Definition accepts (h : gmap nat Instance) (o : oid) : bool :=
  match h !! o with
  | Some inst => accepted inst
  | None => false
  end.

(** What the verdict does to the list of valid extensions. *)
Definition apply_verdict (v : verdict) (o : oid) (valid : list oid)
    : outcome (list oid) :=
  match v with
  | Accept => Returns (valid ++ [o])
  | Exclude _ => Returns valid
  | Abort e => Raises e
  end.

(** An extension that the validator handles without an unexpected
    exception: it is accepted or excluded for a documented reason. *)
Definition expected (h : gmap nat Instance) (o : oid) : Prop :=
  ∃ inst, h !! o = Some inst ∧ ∀ e, check inst ≠ Abort e.

(** The hook invocations that the three checks make for one extension
    object, in order: none when the object carries no entry point or its
    name differs from the entry point's; [require()] alone when
    [require()] raises; [require()] and then [validate_environment()]
    otherwise. *)
Definition hook_calls (h : gmap nat Instance) (o : oid) : list event :=
  match h !! o with
  | Some inst =>
      match entry_point inst with
      | Some ep =>
          if decide (ext_name (class_of inst) ≠ Some (ep_name ep)) then []
          else match ep_require ep with
               | Raises _ => [CallRequire ep]
               | Returns _ => [CallRequire ep; CallValidateEnvironment o]
               end
      | None => []
      end
  | None => []
  end.

(** The exception of the first extension on which validation aborts. *)
Fixpoint first_abort (insts : list Instance) : option exn :=
  match insts with
  | [] => None
  | i :: rest =>
      match check i with
      | Abort e => Some e
      | _ => first_abort rest
      end
  end.

(** ** Discovery *)

(** What instantiating the factory of a registration record does: resolve
    the entry point, then call the class. *)
Definition factory (ep : EntryPoint) : outcome ExtensionClass :=
  match ep_resolve ep with
  | Returns cls =>
      match construct cls with
      | Returns _ => Returns cls
      | Raises e => Raises e
      end
  | Raises e => Raises e
  end.

(** The object that discovery creates for a record whose factory yields
    [cls]. *)
Definition discovered (ep : EntryPoint) (cls : ExtensionClass) : Instance :=
  {| class_of := cls; entry_point := Some ep |}.

(** Discovery never asks for requirements: no [require()] call, and every
    [load] is made with [require=False]. *)
Definition no_requirement (ev : event) : Prop :=
  match ev with
  | CallRequire _ => False
  | CallLoad _ require => require = false
  | _ => True
  end.

(** The exception of the first record whose factory raises. *)
Fixpoint first_broken (reg : list EntryPoint) : option exn :=
  match reg with
  | [] => None
  | ep :: rest =>
      match factory ep with
      | Raises e => Some e
      | Returns _ => first_broken rest
      end
  end.

Definition discovered_instances (reg : list EntryPoint) : list Instance :=
  omap (λ ep, match factory ep with
              | Returns cls => Some (discovered ep cls)
              | Raises _ => None
              end) reg.

Definition inst_name (i : Instance) : option string := ext_name (class_of i).

(** ** The configuration view *)

Section ConfigurationView.

Variable deserialize : string → outcome bool.
Variable raw_config : gmap string (gmap string string).

(** The raw value of [raw_config[name]['enabled']], when both lookups
    succeed. *)
Definition enabled_entry (n : option string) : option string :=
  s ← n; section ← raw_config !! s; section !! "enabled".

(** Every extension of the list is a live object whose name has a section
    with an 'enabled' entry. *)
Definition has_enabled_entry (h : gmap nat Instance) (exts : list oid) : Prop :=
  ∀ o, o ∈ exts →
    ∃ inst, h !! o = Some inst ∧
            is_Some (enabled_entry (ext_name (class_of inst))).

(** The 'enabled' entries that are present are boolean-valued: the
    deserializer accepts them. *)
Definition boolean_valued (h : gmap nat Instance) (exts : list oid) : Prop :=
  ∀ o inst v, o ∈ exts → h !! o = Some inst →
    enabled_entry (ext_name (class_of inst)) = Some v →
    returns_normally (deserialize v).

(** The value of [boolean.deserialize(raw_config[name]['enabled'])]. *)
Definition classify (n : option string) : outcome bool :=
  match n with
  | None => Raises (KeyError None)
  | Some s =>
      match raw_config !! s with
      | None => Raises (KeyError (Some s))
      | Some section =>
          match section !! "enabled" with
          | None => Raises (KeyError (Some "enabled"))
          | Some v => deserialize v
          end
      end
  end.

Definition enables (n : option string) : bool :=
  match classify n with Returns b => b | Raises _ => false end.

Definition disables (n : option string) : bool :=
  match classify n with Returns b => negb b | Raises _ => false end.

(** The exception of the first name that cannot be classified. *)
Fixpoint first_error (names : list (option string)) : option exn :=
  match names with
  | [] => None
  | n :: rest =>
      match classify n with
      | Raises e => Some e
      | Returns _ => first_error rest
      end
  end.

(** The enabled names of the pipeline, read off the registry and the
    configuration alone. *)
Definition pipeline_names (reg : list EntryPoint)
    : outcome (list (option string)) :=
  match first_broken reg with
  | Some e => Raises e
  | None =>
      let insts := discovered_instances reg in
      match join ", " (inst_name <$> insts) with
      | Raises e => Raises e
      | Returns _ =>
          match first_abort insts with
          | Some e => Raises e
          | None =>
              let valid_names :=
                inst_name <$> filter (λ i, accepted i) insts in
              match first_error valid_names with
              | Some e => Raises e
              | None => Returns (filter (λ n, enables n) valid_names)
              end
          end
      end
  end.

End ConfigurationView.

(** * Example data *)

(** Modelled from the spec: [config_lib.Boolean] belongs to the
    configuration subsystem, which is not part of this unit.  The spec
    describes its [deserialize] as accepting a small fixed vocabulary of
    literal representations of true and false and failing on any other
    value; its scenarios use ["true"] and ["false"].  Used only to
    instantiate the deserializer in examples. *)
Definition Boolean_deserialize (value : string) : outcome bool :=
  if decide (value = "true") then Returns true
  else if decide (value = "false") then Returns false
  else Raises (ValueError "invalid value for boolean").

(** [a] is a well-behaved extension; the entry point [b] resolves to a class
    that reports itself as [c]; [d] has a missing dependency; [e] rejects its
    environment; [x] fails with an unexpected exception; [broken] cannot be
    imported; [anon] keeps the base class's [ext_name = None]. *)

Definition simple_class (n : string) : ExtensionClass :=
  {| dist_name := Some ("Mopidy-" +:+ n); ext_name := Some n;
     version := Some "1.0"; construct := Returns tt;
     validate_environment := Returns tt |}.

Definition cls_a : ExtensionClass := simple_class "a".
Definition cls_c : ExtensionClass := simple_class "c".
Definition cls_d : ExtensionClass := simple_class "d".
Definition cls_e : ExtensionClass :=
  {| dist_name := Some "Mopidy-e"; ext_name := Some "e"; version := Some "1.0";
     construct := Returns tt;
     validate_environment := Raises (ExtensionError "no audio output") |}.
Definition cls_x : ExtensionClass :=
  {| dist_name := Some "Mopidy-x"; ext_name := Some "x"; version := Some "1.0";
     construct := Returns tt;
     validate_environment := Raises (PyException "RuntimeError" "boom") |}.
Definition cls_anon : ExtensionClass :=
  {| dist_name := None; ext_name := None; version := None;
     construct := Returns tt; validate_environment := Returns tt |}.

Definition ep_a : EntryPoint :=
  {| ep_name := "a"; ep_require := Returns tt; ep_resolve := Returns cls_a |}.
Definition ep_b : EntryPoint :=
  {| ep_name := "b"; ep_require := Returns tt; ep_resolve := Returns cls_c |}.
Definition ep_d : EntryPoint :=
  {| ep_name := "d"; ep_require := Raises (DistributionNotFound "pyspotify");
     ep_resolve := Returns cls_d |}.
Definition ep_e : EntryPoint :=
  {| ep_name := "e"; ep_require := Returns tt; ep_resolve := Returns cls_e |}.
Definition ep_x : EntryPoint :=
  {| ep_name := "x"; ep_require := Returns tt; ep_resolve := Returns cls_x |}.
Definition ep_broken : EntryPoint :=
  {| ep_name := "broken"; ep_require := Returns tt;
     ep_resolve := Raises (PyException "ImportError" "No module named broken") |}.
Definition ep_anon : EntryPoint :=
  {| ep_name := "anon"; ep_require := Returns tt; ep_resolve := Returns cls_anon |}.

Definition example_registry : list EntryPoint := [ep_a; ep_b; ep_d; ep_e; ep_x].

(** The store before anything is discovered. *)
Definition empty_heap : gmap nat Instance := ∅.

(** The store after discovery of [example_registry] from the empty store:
    the objects 0..4 are the instances for [a], [b], [d], [e], [x]. *)
Definition example_heap : gmap nat Instance :=
  heap_of (load_extensions example_registry empty_heap).

(** An example configuration: [a] and [e] enabled, [d] disabled, [x] with a
    malformed value, [y] with a section that lacks 'enabled'; no section
    for [c]. *)
Definition example_config : gmap string (gmap string string) :=
  {[ "a" := {[ "enabled" := "true" ]};
     "d" := {[ "enabled" := "false" ]};
     "e" := {[ "enabled" := "true" ]};
     "x" := {[ "enabled" := "maybe" ]};
     "y" := {[ "hostname" := "localhost" ]} ]}.

(** * Vocabulary of the further properties *)

(** An extension object that passes the three checks of the validator. *)
Definition passes_checks (inst : Instance) : Prop :=
  ∃ ep, entry_point inst = Some ep ∧
        ext_name (class_of inst) = Some (ep_name ep) ∧
        ep_require ep = Returns tt ∧
        validate_environment (class_of inst) = Returns tt.

(** What the validator does besides computing: it logs on the module's
    logger and calls [require()] and [validate_environment()]. *)
Definition validator_event (ev : event) : Prop :=
  match ev with
  | Log MopidyExtLogger _ _ _ | CallRequire _ | CallValidateEnvironment _ => True
  | _ => False
  end.

(** What the filter does besides computing: informational records on the
    root logger. *)
Definition filter_event (ev : event) : Prop :=
  match ev with
  | Log RootLogger INFO _ _ => True
  | _ => False
  end.

(** Two passes over consecutive parts of a list, the second one only when
    the first one returns. *)
Definition outcome_app {A} (o1 o2 : outcome (list A)) : outcome (list A) :=
  match o1 with
  | Raises e => Raises e
  | Returns l1 =>
      match o2 with
      | Raises e => Raises e
      | Returns l2 => Returns (l1 ++ l2)
      end
  end.



(** The hook calls that discovery makes for one registration record whose
    factory instantiates. *)
Definition discovery_calls (ep : EntryPoint) : list event :=
  match factory ep with
  | Returns cls => [CallLoad ep false; CallConstruct cls]
  | Raises _ => []
  end.

(** Two configurations agree on a name when both lack its section, or both
    have it with the same 'enabled' entry (or both without one). *)
Definition same_enabled (raw_config raw_config' : gmap string (gmap string string))
    (s : string) : Prop :=
  (λ section : gmap string string, section !! "enabled") <$> raw_config !! s =
  (λ section : gmap string string, section !! "enabled") <$> raw_config' !! s.

(** The example configuration with a section for an extension that is not
    installed and a further key for [a]. *)
Definition example_config' : gmap string (gmap string string) :=
  <["a" := {[ "enabled" := "true"; "volume" := "11" ]}]>
    (<["spotify" := {[ "enabled" := "true" ]}]> example_config).

(** * Properties *)

(** ** Reasoning about runs *)

Ltac munfold :=
  repeat (progress (unfold mbind, M_bind, mret, M_ret, bind, ret, raise,
                      catch, lift, emit, log, getattr, getattr_entry_point,
                      get; cbn)).

Lemma bind_run {A B} (m : M A) (k : A → M B) h :
  (m ≫= k) h =
    match m h with
    | Run h1 t1 (Raises e) => Run h1 t1 (Raises e)
    | Run h1 t1 (Returns a) =>
        match k a h1 with
        | Run h2 t2 o => Run h2 (t1 ++ t2) o
        end
    end.
Proof. reflexivity. Qed.

Lemma for_in_cons {A S} (x : A) xs (body : A → S → M S) s h :
  for_in (x :: xs) body s h =
    match body x s h with
    | Run h1 t1 (Raises e) => Run h1 t1 (Raises e)
    | Run h1 t1 (Returns s') =>
        match for_in xs body s' h1 with
        | Run h2 t2 o => Run h2 (t1 ++ t2) o
        end
    end.
Proof. reflexivity. Qed.

Lemma for_in_app {A S} (xs ys : list A) (body : A → S → M S) s h :
  for_in (xs ++ ys) body s h =
    match for_in xs body s h with
    | Run h1 t1 (Raises e) => Run h1 t1 (Raises e)
    | Run h1 t1 (Returns s') =>
        match for_in ys body s' h1 with
        | Run h2 t2 o => Run h2 (t1 ++ t2) o
        end
    end.
Proof.
  revert s h. induction xs as [|x xs IH]; intros s h.
  - cbn. destruct (for_in ys body s h); reflexivity.
  - rewrite <- app_comm_cons, !for_in_cons.
    destruct (body x s h) as [h1 t1 [s'|e]]; [|reflexivity].
    rewrite IH.
    destruct (for_in xs body s' h1) as [h2 t2 [s''|e]]; [|reflexivity].
    destruct (for_in ys body s'' h2) as [h3 t3 o].
    by rewrite app_assoc.
Qed.

(** A loop that raises within a prefix never looks at what follows. *)
Lemma for_in_raises_prefix {A S} (xs ys : list A) (body : A → S → M S) s h e :
  outcome_of (for_in xs body s h) = Raises e →
  for_in (xs ++ ys) body s h = for_in xs body s h.
Proof.
  intros H. rewrite for_in_app.
  destruct (for_in xs body s h) as [h1 t1 [s'|e']]; [discriminate|reflexivity].
Qed.

Lemma ext_names_stable l h :
  heap_of (ext_names l h) = h ∧ trace_of (ext_names l h) = [].
Proof.
  induction l as [|o l [IHh IHt]]; [done|].
  cbn [ext_names]. munfold. destruct (h !! o) as [inst|]; cbn; [|done].
  destruct (ext_names l h) as [h1 t1 [ns|e]]; cbn in *; subst; done.
Qed.

Lemma ext_names_run l h :
  live h l → ext_names l h = Run h [] (Returns (name_of h <$> l)).
Proof.
  induction l as [|o l IH]; intros Hl; [done|].
  cbn [ext_names]. munfold.
  destruct (Hl o) as [inst Ho]; [by left|].
  unfold name_of at 1. rewrite Ho. cbn.
  rewrite IH; [done|]. intros o' Ho'. apply Hl. by right.
Qed.

Lemma strings_of_Some (l : list string) : strings_of (Some <$> l) = Returns l.
Proof. induction l as [|s l IH]; [done|]. cbn. by rewrite IH. Qed.

Lemma strings_of_is_Some (names : list (option string)) :
  Forall is_Some names → ∃ l : list string, names = Some <$> l.
Proof.
  induction 1 as [|n names [s ->] _ [l ->]]; [by exists []|].
  by exists (s :: l).
Qed.

Lemma join_returns sep (names : list (option string)) :
  Forall is_Some names → ∃ s, join sep names = Returns s.
Proof.
  intros [l ->]%strings_of_is_Some. unfold join.
  rewrite strings_of_Some. eauto.
Qed.

(** ** The validation loop *)

Ltac validate_cases inst Hl :=
  unfold validate_extension, check, entry_point_require,
    call_validate_environment;
  munfold; rewrite ?Hl; cbn;
  destruct (entry_point inst) as [?ep|]; cbn; [|try done];
  case_decide; cbn; [try done|];
  destruct (ep_require _) as [[]|[]]; cbn; try done;
  rewrite ?Hl; cbn;
  destruct (validate_environment (class_of inst)) as [[]|[]]; cbn; try done.

Lemma validate_extension_heap o valid h :
  heap_of (validate_extension o valid h) = h.
Proof.
  destruct (h !! o) as [inst|] eqn:Hl.
  - validate_cases inst Hl.
  - unfold validate_extension. munfold. by rewrite Hl.
Qed.

Lemma validate_extension_outcome h o inst valid :
  h !! o = Some inst →
  outcome_of (validate_extension o valid h) = apply_verdict (check inst) o valid.
Proof. intros Hl. validate_cases inst Hl. Qed.

Lemma validate_extension_trace o valid h :
  trace_of (validate_extension o valid h) = trace_of (validate_extension o [] h).
Proof.
  destruct (h !! o) as [inst|] eqn:Hl.
  - validate_cases inst Hl.
  - unfold validate_extension. munfold. by rewrite Hl.
Qed.

Lemma validate_extension_reasons h o inst valid :
  h !! o = Some inst →
  logged_reasons (trace_of (validate_extension o valid h)) =
    match check inst with Exclude k => [k] | _ => [] end.
Proof. intros Hl. validate_cases inst Hl. Qed.

Lemma validate_extension_calls h o inst ep valid :
  h !! o = Some inst → entry_point inst = Some ep →
  calls (trace_of (validate_extension o valid h)) =
    if decide (ext_name (class_of inst) ≠ Some (ep_name ep)) then []
    else match ep_require ep with
         | Raises _ => [CallRequire ep]
         | Returns _ => [CallRequire ep; CallValidateEnvironment o]
         end.
Proof.
  intros Hl He.
  unfold validate_extension, entry_point_require, call_validate_environment.
  munfold. rewrite ?Hl. cbn. rewrite He. cbn.
  case_decide; cbn; [done|].
  destruct (ep_require ep) as [[]|[]]; cbn; try done.
  rewrite ?Hl; cbn.
  destruct (validate_environment (class_of inst)) as [[]|[]]; cbn; done.
Qed.

Lemma check_exclude_fails inst k : check inst = Exclude k → fails_check inst k.
Proof.
  unfold check.
  destruct (entry_point inst) as [ep|] eqn:He; [|done].
  case_decide as Hn.
  { intros [= <-]. by exists ep. }
  destruct (ep_require ep) as [[]|[]] eqn:Hr; try done.
  - destruct (validate_environment (class_of inst)) as [[]|[]] eqn:Hv; try done.
    intros [= <-]. by eexists.
  - intros [= <-]. by exists ep, requirement.
Qed.

Lemma check_accept_name inst :
  check inst = Accept →
  ∃ ep, entry_point inst = Some ep ∧
        ext_name (class_of inst) = Some (ep_name ep).
Proof.
  unfold check.
  destruct (entry_point inst) as [ep|]; [|done].
  case_decide as Hn; [done|]. intros _. exists ep. split; [done|].
  by destruct (decide (ext_name (class_of inst) = Some (ep_name ep))).
Qed.

Lemma accepts_lookup h o inst :
  h !! o = Some inst →
  accepts h o = match check inst with Accept => true | _ => false end.
Proof. intros Hl. unfold accepts, accepted. by rewrite Hl. Qed.

(** The loop as a whole: the store is untouched; on normal completion the
    result extends the accumulator by the accepted extensions, and the
    trace is the concatenation of the per-extension traces. *)
Lemma validate_loop_heap exts valid h :
  heap_of (for_in exts validate_extension valid h) = h.
Proof.
  revert valid. induction exts as [|o exts IH]; intros valid; [done|].
  rewrite for_in_cons.
  pose proof (validate_extension_heap o valid h) as Hh.
  destruct (validate_extension o valid h) as [h1 t1 [s'|e]]; cbn in *; subst;
    [|done].
  specialize (IH s'). by destruct (for_in exts validate_extension s' h).
Qed.

Lemma validate_loop_returns exts valid h out :
  outcome_of (for_in exts validate_extension valid h) = Returns out →
  out = valid ++ filter (λ o, accepts h o) exts ∧
  trace_of (for_in exts validate_extension valid h) =
    concat ((λ o, trace_of (validate_extension o [] h)) <$> exts) ∧
  Forall (expected h) exts.
Proof.
  revert valid. induction exts as [|o exts IH]; intros valid.
  { cbn. intros [= <-]. by rewrite app_nil_r. }
  rewrite for_in_cons.
  pose proof (validate_extension_heap o valid h) as Hh.
  pose proof (validate_extension_trace o valid h) as Ht.
  destruct (h !! o) as [inst|] eqn:Hl.
  - pose proof (validate_extension_outcome h o inst valid Hl) as Ho.
    destruct (validate_extension o valid h) as [h1 t1 [s'|e]]; cbn in *; subst;
      [|done].
    specialize (IH s').
    destruct (for_in exts validate_extension s' h) as [h2 t2 o2]; cbn in *.
    intros ->. destruct (IH eq_refl) as (-> & -> & HF).
    rewrite (accepts_lookup h o inst Hl).
    destruct (check inst) eqn:Hc; cbn in Ho; simplify_eq; cbn.
    + rewrite <- app_assoc. split; [done|split; [done|]].
      constructor; [|done]. exists inst. by rewrite Hc.
    + split; [done|split; [done|]].
      constructor; [|done]. exists inst. by rewrite Hc.
  - unfold validate_extension. munfold. rewrite Hl. done.
Qed.

Lemma validate_loop_all_expected exts valid h :
  Forall (expected h) exts →
  outcome_of (for_in exts validate_extension valid h) =
    Returns (valid ++ filter (λ o, accepts h o) exts).
Proof.
  intros HF. revert valid.
  induction HF as [|o exts (inst & Hl & Hc) _ IH]; intros valid.
  { cbn. by rewrite app_nil_r. }
  rewrite for_in_cons.
  pose proof (validate_extension_heap o valid h) as Hh.
  pose proof (validate_extension_outcome h o inst valid Hl) as Ho.
  destruct (validate_extension o valid h) as [h1 t1 [s'|e]]; cbn in *; subst.
  - specialize (IH s').
    destruct (for_in exts validate_extension s' h) as [h2 t2 o2]; cbn in *.
    rewrite IH, (accepts_lookup h o inst Hl).
    destruct (check inst); cbn in *; simplify_eq; [|done].
    by rewrite <- app_assoc.
  - destruct (check inst) as [| |e'] eqn:Hc'; cbn in *; simplify_eq.
    by destruct (Hc e').
Qed.

Lemma accepted_names_are_strings h exts :
  Forall is_Some (name_of h <$> filter (λ o, accepts h o) exts).
Proof.
  apply Forall_fmap, Forall_forall. intros o [Ha _]%list_elem_of_filter.
  unfold accepts, accepted in Ha. unfold name_of. cbn.
  destruct (h !! o) as [inst|]; [|done].
  destruct (check inst) eqn:Hc; try done.
  destruct (check_accept_name inst Hc) as (ep & _ & ->). by eexists.
Qed.

Lemma accepted_live h exts : live h (filter (λ o, accepts h o) exts).
Proof.
  intros o [Ha _]%list_elem_of_filter. unfold accepts in Ha.
  by destruct (h !! o).
Qed.

(** [validate_extensions] in terms of its loop. *)
Lemma validate_extensions_run exts h :
  validate_extensions exts h =
    match for_in exts validate_extension [] h with
    | Run _ t (Raises e) => Run h t (Raises e)
    | Run _ t (Returns out) =>
        match join ", " (name_of h <$> out) with
        | Returns joined =>
            Run h (t ++ [Log MopidyExtLogger DEBUG "Valid extensions: %s"
                           [VStr joined]])
              (Returns out)
        | Raises e => Run h t (Raises e)
        end
    end.
Proof.
  unfold validate_extensions. rewrite bind_run.
  pose proof (validate_loop_heap exts [] h) as Hh.
  pose proof (validate_loop_returns exts [] h) as Hr.
  destruct (for_in exts validate_extension [] h) as [h1 t1 [out|e]];
    cbn in *; subst; [|done].
  destruct (Hr out eq_refl) as (-> & _ & _). cbn.
  rewrite bind_run, ext_names_run by apply accepted_live.
  munfold.
  destruct (join ", " (name_of h <$> filter (λ o, accepts h o) exts));
    cbn; by rewrite ?app_nil_r.
Qed.

Lemma validate_extensions_outcome exts h :
  outcome_of (validate_extensions exts h) =
    outcome_of (for_in exts validate_extension [] h).
Proof.
  rewrite validate_extensions_run.
  pose proof (validate_loop_returns exts [] h) as Hr.
  destruct (for_in exts validate_extension [] h) as [h1 t1 [out|e]];
    cbn in *; [|done].
  destruct (Hr out eq_refl) as (-> & _ & _). cbn.
  destruct (join_returns ", " _ (accepted_names_are_strings h exts)) as [s ->].
  done.
Qed.

(** ** Properties of validate_extensions *)

Lemma logged_reasons_app t1 t2 :
  logged_reasons (t1 ++ t2) = logged_reasons t1 ++ logged_reasons t2.
Proof. apply omap_app. Qed.

Lemma calls_app t1 t2 : calls (t1 ++ t2) = calls t1 ++ calls t2.
Proof. apply List.filter_app. Qed.

Lemma calls_concat (ts : list (list event)) :
  calls (concat ts) = concat (calls <$> ts).
Proof.
  induction ts as [|t ts IH]; [done|]. cbn. by rewrite calls_app, IH.
Qed.

Lemma validate_extensions_returns exts h out :
  outcome_of (validate_extensions exts h) = Returns out →
  out = filter (λ o, accepts h o) exts ∧ Forall (expected h) exts ∧
  ∃ joined,
    validate_extensions exts h =
      Run h (concat ((λ o, trace_of (validate_extension o [] h)) <$> exts) ++
             [Log MopidyExtLogger DEBUG "Valid extensions: %s" [VStr joined]])
          (Returns out).
Proof.
  rewrite validate_extensions_outcome. intros Ho.
  destruct (validate_loop_returns exts [] h out Ho) as (Hout & Ht & HF).
  cbn in Hout. split_and!; [done..|].
  rewrite validate_extensions_run.
  destruct (for_in exts validate_extension [] h) as [h1 t1 [out'|e]];
    cbn in *; simplify_eq.
  destruct (join_returns ", " _ (accepted_names_are_strings h exts)) as [s ->].
  by exists s.
Qed.

Lemma reasons_count h exts :
  Forall (expected h) exts →
  length (logged_reasons
            (concat ((λ o, trace_of (validate_extension o [] h)) <$> exts))) +
    length (filter (λ o, accepts h o) exts) = length exts.
Proof.
  induction 1 as [|o exts (inst & Hl & Hc) _ IH]; [done|].
  cbn [fmap list_fmap concat]. rewrite logged_reasons_app, length_app.
  rewrite (validate_extension_reasons h o inst [] Hl), filter_cons.
  rewrite (accepts_lookup h o inst Hl).
  destruct (check inst) as [|k|e]; [| |by destruct (Hc e)];
    cbn in *; case_decide; try done; cbn [length]; lia.
Qed.

(** C1: whenever [validate_extensions] returns, its result is a subsequence
    of its input; every input element absent from the result violates one
    of the three documented checks and exactly that one reason is logged
    while it is processed; and the number of logged exclusion reasons plus
    the number of surviving extensions is the number of inputs. *)
Theorem validate_extensions_subsequence h exts out :
  outcome_of (validate_extensions exts h) = Returns out →
  out `sublist_of` exts ∧
  (∀ o, o ∈ exts → o ∉ out →
     ∃ inst k, h !! o = Some inst ∧ fails_check inst k ∧
       logged_reasons (trace_of (validate_extension o [] h)) = [k]) ∧
  length (logged_reasons (trace_of (validate_extensions exts h))) +
    length out = length exts.
Proof.
  intros (-> & HF & joined & Hrun)%validate_extensions_returns.
  split_and!.
  - apply sublist_filter.
  - intros o Hin Hout.
    rewrite Forall_forall in HF. destruct (HF o Hin) as (inst & Hl & Hc).
    exists inst. destruct (check inst) as [|k|e] eqn:Hck.
    + destruct Hout. apply list_elem_of_filter. split; [|done].
      by rewrite (accepts_lookup h o inst Hl), Hck.
    + exists k. split_and!; [done|by apply check_exclude_fails|].
      by rewrite (validate_extension_reasons h o inst [] Hl), Hck.
    + by destruct (Hc e).
  - rewrite Hrun. cbn [trace_of]. rewrite logged_reasons_app. cbn.
    rewrite app_nil_r. by apply reasons_count.
Qed.

Lemma validate_extensions_subsequence_witness :
  [0] `sublist_of` [0; 1; 2; 3] ∧
  (∀ o, o ∈ [0; 1; 2; 3] → o ∉ [0] →
     ∃ inst k, example_heap !! o = Some inst ∧ fails_check inst k ∧
       logged_reasons (trace_of (validate_extension o [] example_heap)) = [k]) ∧
  length (logged_reasons
            (trace_of (validate_extensions [0; 1; 2; 3] example_heap))) +
    length [0] = length [0; 1; 2; 3].
Proof.
  apply (validate_extensions_subsequence example_heap [0; 1; 2; 3] [0]).
  vm_compute. reflexivity.
Defined.

(** C5: an extension whose [ext_name] differs from its entry point's name
    is not in the result of [validate_extensions], whatever its dependency
    and environment hooks do. *)
Theorem mismatched_name_never_validated h exts o inst ep out :
  h !! o = Some inst →
  entry_point inst = Some ep →
  ext_name (class_of inst) ≠ Some (ep_name ep) →
  outcome_of (validate_extensions exts h) = Returns out →
  o ∉ out.
Proof.
  intros Hl He Hn (-> & _)%validate_extensions_returns.
  intros [Ha _]%list_elem_of_filter.
  rewrite (accepts_lookup h o inst Hl) in Ha. unfold check in Ha.
  rewrite He in Ha. by case_decide.
Qed.

Lemma mismatched_name_never_validated_witness : 1 ∉ [0].
Proof.
  apply (mismatched_name_never_validated example_heap [0; 1; 2; 3] 1
           {| class_of := cls_c; entry_point := Some ep_b |} ep_b [0]);
    [reflexivity|reflexivity|discriminate|vm_compute; reflexivity].
Defined.

Lemma fails_check_not_accepted inst k : fails_check inst k → check inst ≠ Accept.
Proof.
  unfold check. destruct k; cbn.
  - intros (ep & -> & Hn). by case_decide.
  - intros (ep & req & -> & ->). by case_decide.
  - intros (msg & ->). destruct (entry_point inst) as [ep|]; [|done].
    case_decide; [done|]. by destruct (ep_require ep) as [[]|[]].
Qed.

(** C3: when every extension of the input is either valid or excluded for
    one of the three expected reasons, [validate_extensions] returns
    normally, leaves the object store as it was, and every extension whose
    name mismatches its entry point, whose [require()] raises
    [DistributionNotFound] or whose [validate_environment()] raises
    [ExtensionError] is absent from the result. *)
Theorem expected_exclusions_never_raise h exts :
  Forall (expected h) exts →
  ∃ out,
    outcome_of (validate_extensions exts h) = Returns out ∧
    heap_of (validate_extensions exts h) = h ∧
    ∀ o inst k, o ∈ exts → h !! o = Some inst → fails_check inst k →
                o ∉ out.
Proof.
  intros HF. exists (filter (λ o, accepts h o) exts).
  rewrite validate_extensions_outcome.
  rewrite (validate_loop_all_expected exts [] h HF). split_and!; [done| |].
  - rewrite validate_extensions_run.
    destruct (for_in exts validate_extension [] h) as [h1 t1 [out|e]]; [|done].
    by destruct (join ", " (name_of h <$> out)).
  - intros o inst k _ Hl Hc%fails_check_not_accepted [Ha _]%list_elem_of_filter.
    rewrite (accepts_lookup h o inst Hl) in Ha. by destruct (check inst).
Qed.

Lemma expected_exclusions_never_raise_witness :
  ∃ out,
    outcome_of (validate_extensions [0; 1; 2; 3] example_heap) = Returns out ∧
    heap_of (validate_extensions [0; 1; 2; 3] example_heap) = example_heap ∧
    ∀ o inst k, o ∈ [0; 1; 2; 3] → example_heap !! o = Some inst →
                fails_check inst k → o ∉ out.
Proof.
  apply (expected_exclusions_never_raise example_heap [0; 1; 2; 3]).
  repeat constructor; eexists; (split; [reflexivity|]); intros e; vm_compute;
    discriminate.
Defined.

(** The three expected reasons are exactly the cases in which [check]
    excludes. *)
Lemma check_exclude_iff inst k :
  check inst = Exclude k ↔
  ∃ ep, entry_point inst = Some ep ∧
    match k with
    | IdentityMismatch => ext_name (class_of inst) ≠ Some (ep_name ep)
    | DependencyNotFound =>
        ext_name (class_of inst) = Some (ep_name ep) ∧
        ∃ req, ep_require ep = Raises (DistributionNotFound req)
    | EnvironmentError =>
        ext_name (class_of inst) = Some (ep_name ep) ∧
        ep_require ep = Returns tt ∧
        ∃ msg, validate_environment (class_of inst) = Raises (ExtensionError msg)
    end.
Proof.
  unfold check. split.
  - destruct (entry_point inst) as [ep|]; [|done]. intros H. exists ep.
    split; [done|]. case_decide as Hn.
    { by simplify_eq. }
    destruct (ep_require ep) as [[]|[]]; try done.
    + destruct (validate_environment (class_of inst)) as [[]|[]]; try done.
      simplify_eq. eauto.
    + simplify_eq. eauto.
  - intros (ep & -> & H). case_decide as Hn.
    + destruct k; [done|by destruct H|by destruct H].
    + destruct k.
      * done.
      * destruct H as (_ & req & ->). done.
      * destruct H as (_ & -> & msg & ->). done.
Qed.

Lemma validate_loop_processed exts valid h :
  ∃ processed, processed `prefix_of` exts ∧
    trace_of (for_in exts validate_extension valid h) =
      concat ((λ o, trace_of (validate_extension o [] h)) <$> processed).
Proof.
  revert valid. induction exts as [|o exts IH]; intros valid.
  { exists []. done. }
  rewrite for_in_cons.
  pose proof (validate_extension_heap o valid h) as Hh.
  pose proof (validate_extension_trace o valid h) as Ht.
  destruct (validate_extension o valid h) as [h1 t1 [s'|e]]; cbn in *; subst.
  - destruct (IH s') as (processed & Hp & Htr).
    exists (o :: processed). split; [by apply prefix_cons|].
    destruct (for_in exts validate_extension s' h) as [h2 t2 o2]; cbn in *.
    by rewrite Htr.
  - exists [o]. split; [apply prefix_cons, prefix_nil|].
    cbn. by rewrite app_nil_r.
Qed.

Lemma validate_extensions_calls exts h :
  calls (trace_of (validate_extensions exts h)) =
    calls (trace_of (for_in exts validate_extension [] h)).
Proof.
  rewrite validate_extensions_run.
  destruct (for_in exts validate_extension [] h) as [h1 t1 [out|e]]; [|done].
  destruct (join ", " (name_of h <$> out)); [|done].
  cbn. rewrite calls_app. cbn. by rewrite app_nil_r.
Qed.

Lemma validate_extension_hook_calls o valid h :
  calls (trace_of (validate_extension o valid h)) = hook_calls h o.
Proof.
  unfold hook_calls. destruct (h !! o) as [inst|] eqn:Hl.
  - destruct (entry_point inst) as [ep|] eqn:He.
    + by apply validate_extension_calls.
    + unfold validate_extension. munfold. rewrite !Hl. cbn. by rewrite He.
  - unfold validate_extension. munfold. by rewrite Hl.
Qed.

(** The hook invocations of the loop: those of every extension when the
    loop completes, those of the extensions up to and including the one on
    which the body raised otherwise. *)
Lemma validate_loop_hook_calls exts valid h :
  match outcome_of (for_in exts validate_extension valid h) with
  | Returns _ =>
      calls (trace_of (for_in exts validate_extension valid h)) =
        concat (hook_calls h <$> exts)
  | Raises _ =>
      ∃ pre o post, exts = pre ++ o :: post ∧
        returns_normally (outcome_of (for_in pre validate_extension valid h)) ∧
        calls (trace_of (for_in exts validate_extension valid h)) =
          concat (hook_calls h <$> (pre ++ [o]))
  end.
Proof.
  revert valid. induction exts as [|o exts IH]; intros valid; [done|].
  rewrite for_in_cons.
  pose proof (validate_extension_heap o valid h) as Hh.
  pose proof (validate_extension_hook_calls o valid h) as Hc.
  destruct (validate_extension o valid h) as [h1 t1 [s'|e]] eqn:Hstep;
    cbn [heap_of trace_of] in Hh, Hc; subst h1.
  - specialize (IH s').
    destruct (for_in exts validate_extension s' h) as [h2 t2 [out|e]] eqn:Hrest;
      cbn [outcome_of trace_of] in IH |- *.
    + by rewrite calls_app, Hc, IH.
    + destruct IH as (pre & o' & post & -> & Hpre & Ht).
      exists (o :: pre), o', post. split_and!; [done| |].
      * rewrite for_in_cons, Hstep.
        by destruct (for_in pre validate_extension s' h) as [h3 t3 [?|?]].
      * by rewrite calls_app, Hc, Ht.
  - exists [], o, exts. split_and!; [done..|].
    cbn [trace_of app fmap list_fmap concat]. by rewrite Hc, app_nil_r.
Qed.

Lemma elem_of_concat {A} (x : A) (ls : list (list A)) :
  x ∈ concat ls → ∃ l, x ∈ l ∧ l ∈ ls.
Proof.
  induction ls as [|l ls IH]; cbn; [by intros ?%elem_of_nil|].
  intros [?|(l' & ? & ?)%IH]%elem_of_app.
  - exists l. split; [done|by left].
  - exists l'. split; [done|by right].
Qed.

Lemma hook_calls_environment h o o' :
  CallValidateEnvironment o ∈ hook_calls h o' →
  o' = o ∧
  ∃ inst ep, h !! o = Some inst ∧ entry_point inst = Some ep ∧
             ext_name (class_of inst) = Some (ep_name ep) ∧
             returns_normally (ep_require ep).
Proof.
  unfold hook_calls. destruct (h !! o') as [inst|] eqn:Hl; [|by intros ?%elem_of_nil].
  destruct (entry_point inst) as [ep|] eqn:He; [|by intros ?%elem_of_nil].
  case_decide as Hn; [by intros ?%elem_of_nil|].
  destruct (ep_require ep) as [[]|e] eqn:Hr.
  - intros [?|[?|?%elem_of_nil]%elem_of_cons]%elem_of_cons; try done.
    simplify_eq. split; [done|]. exists inst, ep. by rewrite Hr.
  - intros [?|?%elem_of_nil]%elem_of_cons; done.
Qed.

(** C4: [validate_extensions] applies the three checks to each extension
    in the fixed order identity, dependency, environment and stops at the
    first failure.  The hook invocations of a pass that returns are, for
    every extension of the input in order, those of [hook_calls]: none
    after a name mismatch, [require()] alone when it raises, [require()]
    and then [validate_environment()] otherwise.  A pass that raises has
    made exactly these invocations for the extensions up to and including
    the one it raised on.  In no pass is [validate_environment()] invoked
    on an extension whose name mismatches or whose [require()] raises. *)
Theorem checks_in_order_short_circuit h exts :
  (returns_normally (outcome_of (validate_extensions exts h)) →
   calls (trace_of (validate_extensions exts h)) =
     concat (hook_calls h <$> exts)) ∧
  (∀ e, outcome_of (validate_extensions exts h) = Raises e →
     ∃ pre o post, exts = pre ++ o :: post ∧
       returns_normally (outcome_of (validate_extensions pre h)) ∧
       calls (trace_of (validate_extensions exts h)) =
         concat (hook_calls h <$> (pre ++ [o]))) ∧
  (∀ o inst ep,
     h !! o = Some inst → entry_point inst = Some ep →
     ext_name (class_of inst) ≠ Some (ep_name ep) ∨
       ¬ returns_normally (ep_require ep) →
     CallValidateEnvironment o ∉ trace_of (validate_extensions exts h)).
Proof.
  pose proof (validate_loop_hook_calls exts [] h) as Hloop.
  rewrite validate_extensions_outcome, validate_extensions_calls.
  split_and!.
  - intros Hret.
    by destruct (outcome_of (for_in exts validate_extension [] h)).
  - intros e He. rewrite He in Hloop.
    destruct Hloop as (pre & o & post & -> & Hpre & Ht).
    exists pre, o, post. by rewrite validate_extensions_outcome.
  - intros o inst ep Hl He Hfail Hin.
    assert (Hcall : CallValidateEnvironment o ∈
                      calls (trace_of (validate_extensions exts h))).
    { apply list_elem_of_In, List.filter_In. split; [|done].
      by apply list_elem_of_In. }
    rewrite validate_extensions_calls in Hcall.
    assert (Hsome : ∃ l, CallValidateEnvironment o ∈ concat (hook_calls h <$> l)).
    { destruct (outcome_of (for_in exts validate_extension [] h)).
      - exists exts. by rewrite <- Hloop.
      - destruct Hloop as (pre & o' & post & _ & _ & Ht).
        exists (pre ++ [o']). by rewrite <- Ht. }
    destruct Hsome as [l Hl'].
    apply elem_of_concat in Hl' as (cs & Hcs & Hmem).
    apply list_elem_of_fmap in Hmem as (o' & -> & _).
    apply hook_calls_environment in Hcs
      as (-> & inst' & ep' & Hl2 & He2 & Hn & Hr).
    simplify_eq. by destruct Hfail.
Qed.

Lemma checks_in_order_short_circuit_witness :
  calls (trace_of (validate_extensions [0; 1; 2; 3] example_heap)) =
    [CallRequire ep_a; CallValidateEnvironment 0;
     CallRequire ep_d;
     CallRequire ep_e; CallValidateEnvironment 3] ∧
  CallValidateEnvironment 2 ∉
    trace_of (validate_extensions [0; 1; 2; 3] example_heap).
Proof.
  destruct (checks_in_order_short_circuit example_heap [0; 1; 2; 3])
    as (Hret & _ & Hnever).
  split.
  - apply Hret. vm_compute. exact I.
  - apply (Hnever 2 {| class_of := cls_d; entry_point := Some ep_d |} ep_d);
      [reflexivity|reflexivity|].
    right. vm_compute. tauto.
Defined.

(** C6: when the pass reaches an extension whose [validate_environment()]
    raises an exception other than [ExtensionError], that exception is the
    outcome of [validate_extensions]; the pass stops there: the call of the
    hook is the last event of the trace and the extensions after it play no
    part in the run. *)
Theorem unexpected_environment_error_propagates
    h pre o post inst ep e valid_pre :
  h !! o = Some inst →
  entry_point inst = Some ep →
  ext_name (class_of inst) = Some (ep_name ep) →
  ep_require ep = Returns tt →
  validate_environment (class_of inst) = Raises e →
  (∀ message, e ≠ ExtensionError message) →
  outcome_of (validate_extensions pre h) = Returns valid_pre →
  outcome_of (validate_extensions (pre ++ o :: post) h) = Raises e ∧
  last (trace_of (validate_extensions (pre ++ o :: post) h)) =
    Some (CallValidateEnvironment o) ∧
  validate_extensions (pre ++ o :: post) h = validate_extensions (pre ++ [o]) h.
Proof.
  intros Hl He Hn Hr Hv Hne Hpre.
  assert (Hstep : ∀ valid,
    validate_extension o valid h =
      Run h [Log MopidyExtLogger DEBUG "Validating extension: %s"
               [of_name (ext_name (class_of inst))];
             CallRequire ep; CallValidateEnvironment o] (Raises e)).
  { intros valid.
    unfold validate_extension, entry_point_require, call_validate_environment.
    munfold. rewrite !Hl. cbn. rewrite He. cbn.
    case_decide; [done|]. cbn. rewrite Hr. cbn. rewrite Hl. cbn.
    rewrite Hv. cbn. destruct e; try done. by destruct (Hne message). }
  rewrite validate_extensions_outcome in Hpre.
  assert (Hloop : ∀ rest,
    ∃ t, for_in (pre ++ o :: rest) validate_extension [] h =
           Run h (t ++ [CallValidateEnvironment o]) (Raises e) ∧
         for_in (pre ++ [o]) validate_extension [] h =
           Run h (t ++ [CallValidateEnvironment o]) (Raises e)).
  { intros rest. rewrite !for_in_app.
    pose proof (validate_loop_heap pre [] h) as Hh.
    destruct (for_in pre validate_extension [] h) as [h1 t1 [s'|e']];
      cbn in Hh, Hpre; simplify_eq.
    rewrite !for_in_cons, !Hstep.
    eexists (t1 ++ [_; _]). by rewrite <- !app_assoc. }
  destruct (Hloop post) as (t & Hpost & Hone).
  rewrite !validate_extensions_run, Hpost, Hone. split_and!; [done| |done].
  cbn. by rewrite last_snoc.
Qed.

Lemma unexpected_environment_error_propagates_witness :
  outcome_of (validate_extensions ([0; 1] ++ 4 :: [2; 3]) example_heap) =
    Raises (PyException "RuntimeError" "boom") ∧
  last (trace_of (validate_extensions ([0; 1] ++ 4 :: [2; 3]) example_heap)) =
    Some (CallValidateEnvironment 4) ∧
  validate_extensions ([0; 1] ++ 4 :: [2; 3]) example_heap =
    validate_extensions ([0; 1] ++ [4]) example_heap.
Proof.
  apply (unexpected_environment_error_propagates example_heap [0; 1] 4 [2; 3]
           {| class_of := cls_x; entry_point := Some ep_x |} ep_x
           (PyException "RuntimeError" "boom") [0]);
    [reflexivity|reflexivity|reflexivity|reflexivity|reflexivity|
     discriminate|vm_compute; reflexivity].
Defined.

(** ** Properties of load_extensions *)

Lemma load_extension_raises ep installed h e :
  factory ep = Raises e →
  ∃ t, load_extension ep installed h = Run h t (Raises e) ∧
       Forall no_requirement t.
Proof.
  unfold factory, load_extension, entry_point_load, instantiate. intros Hf.
  munfold. destruct (ep_resolve ep) as [cls|e']; cbn.
  - destruct (construct cls) as [[]|e']; [done|]. simplify_eq. cbn.
    eexists. split; [done|]. by repeat constructor.
  - simplify_eq. eexists. split; [done|]. by repeat constructor.
Qed.

Lemma load_extension_returns ep installed h cls :
  factory ep = Returns cls →
  ∃ t, load_extension ep installed h =
         Run (<[fresh (dom h) := discovered ep cls]> h) t
             (Returns (installed ++ [fresh (dom h)])) ∧
       Forall no_requirement t.
Proof.
  unfold factory, load_extension, entry_point_load, instantiate,
    setattr_entry_point, alloc.
  intros Hf. munfold. destruct (ep_resolve ep) as [cls'|e']; [|done]. cbn.
  destruct (construct cls') as [[]|e']; [|done]. simplify_eq. cbn.
  rewrite lookup_insert_eq. cbn. rewrite insert_insert_eq.
  rewrite !lookup_insert_eq. cbn.
  eexists. split; [done|]. by repeat constructor.
Qed.

Lemma fresh_not_allocated (h : gmap nat Instance) : h !! fresh (dom h) = None.
Proof. apply not_elem_of_dom, is_fresh. Qed.

(** Discovery of a registry whose factories all succeed. *)
Lemma load_loop_returns reg installed h :
  Forall (λ ep, ∃ cls, factory ep = Returns cls) reg →
  ∃ h' t new,
    for_in reg load_extension installed h = Run h' t (Returns (installed ++ new)) ∧
    Forall2 (λ o ep, ∃ cls, factory ep = Returns cls ∧ h !! o = None ∧
                            h' !! o = Some (discovered ep cls)) new reg ∧
    NoDup new ∧
    (∀ o, is_Some (h !! o) → h' !! o = h !! o) ∧
    Forall no_requirement t.
Proof.
  intros HF. revert installed h.
  induction HF as [|ep reg [cls Hf] _ IH]; intros installed h.
  { exists h, [], []. rewrite app_nil_r. split_and!; try done; constructor. }
  rewrite for_in_cons.
  destruct (load_extension_returns ep installed h cls Hf) as (t1 & -> & Ht1).
  set (o := fresh (dom h)). set (h1 := <[o := discovered ep cls]> h).
  destruct (IH (installed ++ [o]) h1) as (h' & t2 & new & -> & HF2 & Hnd & Hold & Ht2).
  assert (Ho : h !! o = None) by apply fresh_not_allocated.
  assert (Ho1 : h1 !! o = Some (discovered ep cls)) by apply lookup_insert_eq.
  exists h', (t1 ++ t2), (o :: new). rewrite <- app_assoc. split_and!.
  - done.
  - constructor.
    + exists cls. split_and!; [done..|]. rewrite Hold; [done|by eexists].
    + eapply Forall2_impl; [exact HF2|]. cbn.
      intros o' ep' (cls' & ? & Hn & ?). exists cls'. split_and!; [done| |done].
      destruct (decide (o' = o)) as [->|Hne]; [by rewrite Ho1 in Hn|].
      unfold h1 in Hn. by rewrite lookup_insert_ne in Hn.
  - constructor; [|done]. intros Hin.
    apply list_elem_of_lookup in Hin as [i Hi].
    destruct (Forall2_lookup_l _ _ _ _ _ HF2 Hi) as (ep' & _ & cls' & _ & Hn & _).
    by rewrite Ho1 in Hn.
  - intros o' Hsome. rewrite Hold.
    + unfold h1. apply lookup_insert_ne. intros <-. rewrite Ho in Hsome.
      by destruct Hsome.
    + unfold h1. rewrite lookup_insert_ne; [done|]. intros <-.
      rewrite Ho in Hsome. by destruct Hsome.
  - by apply Forall_app.
Qed.

Lemma discovered_names h' new reg :
  Forall2 (λ o ep, ∃ cls, (factory ep = Returns cls ∧ is_Some (ext_name cls)) ∧
                          h' !! o = Some (discovered ep cls)) new reg →
  live h' new ∧ Forall is_Some (name_of h' <$> new).
Proof.
  induction 1 as [|o ep new reg (cls & [_ Hn] & Hl) _ [IHl IHn]].
  { split; [by intros o Ho%elem_of_nil|constructor]. }
  split.
  - intros o' [->|Hin]%elem_of_cons; [by eexists|by apply IHl].
  - cbn. constructor; [|done]. unfold name_of. by rewrite Hl.
Qed.

(** C7: when every registration record's factory instantiates and every
    extension class names itself with a string, [load_extensions] returns
    one new object per record, in the registry's enumeration order, each
    carrying its record as [entry_point]; the objects are pairwise distinct
    and new, existing objects are untouched, and no requirement is ever
    asked for, so the outcome of [require()] plays no part. *)
Theorem load_extensions_in_enumeration_order reg h :
  Forall (λ ep, ∃ cls, factory ep = Returns cls ∧ is_Some (ext_name cls)) reg →
  ∃ out,
    outcome_of (load_extensions reg h) = Returns out ∧
    Forall2 (λ o ep, ∃ cls, factory ep = Returns cls ∧ h !! o = None ∧
               heap_of (load_extensions reg h) !! o = Some (discovered ep cls))
            out reg ∧
    NoDup out ∧
    (∀ o, is_Some (h !! o) → heap_of (load_extensions reg h) !! o = h !! o) ∧
    Forall no_requirement (trace_of (load_extensions reg h)).
Proof.
  intros HF.
  assert (HF' : Forall (λ ep, ∃ cls, factory ep = Returns cls) reg).
  { eapply Forall_impl; [exact HF|]. intros ep (cls & ? & _). by exists cls. }
  destruct (load_loop_returns reg [] h HF')
    as (h' & t & new & Hrun & HF2 & Hnd & Hold & Ht).
  cbn in Hrun.
  assert (Hnames : live h' new ∧ Forall is_Some (name_of h' <$> new)).
  { apply (discovered_names h' new reg).
    clear -HF HF2. induction HF2 as [|o ep new reg (cls & Hf & _ & Hl) _ IH].
    - constructor.
    - apply Forall_cons in HF as [(cls' & Hf' & Hn) HF]. constructor; [|auto].
      exists cls. rewrite Hf in Hf'. by simplify_eq. }
  destruct Hnames as [Hlive Hstr].
  destruct (join_returns ", " _ Hstr) as [joined Hj].
  assert (Hfull : load_extensions reg h =
            Run h' (t ++ [Log RootLogger DEBUG "Discovered extensions: %s"
                            [VStr joined]]) (Returns new)).
  { unfold load_extensions. rewrite bind_run, Hrun, bind_run.
    rewrite (ext_names_run new h' Hlive). munfold. by rewrite Hj. }
  exists new. rewrite Hfull. cbn. split_and!; [done..|].
  apply Forall_app. split; [done|]. by repeat constructor.
Qed.

Lemma load_extensions_in_enumeration_order_witness :
  ∃ out,
    outcome_of (load_extensions [ep_a; ep_b; ep_d] empty_heap) = Returns out ∧
    Forall2 (λ o ep, ∃ cls, factory ep = Returns cls ∧
               empty_heap !! o = None ∧
               heap_of (load_extensions [ep_a; ep_b; ep_d] empty_heap) !! o =
                 Some (discovered ep cls))
            out [ep_a; ep_b; ep_d] ∧
    NoDup out ∧
    (∀ o, is_Some (empty_heap !! o) →
          heap_of (load_extensions [ep_a; ep_b; ep_d] empty_heap) !! o = empty_heap !! o) ∧
    Forall no_requirement (trace_of (load_extensions [ep_a; ep_b; ep_d] empty_heap)).
Proof.
  apply (load_extensions_in_enumeration_order [ep_a; ep_b; ep_d] empty_heap).
  repeat constructor; eexists; (split; [reflexivity|by eexists]).
Defined.

(** C8: when the records before a registration record instantiate and its
    own factory raises, [load_extensions] raises that exception; the run is
    the same whatever records follow, so none of them is processed and no
    list is returned. *)
Theorem broken_factory_aborts_discovery pre ep post h e :
  Forall (λ ep', ∃ cls, factory ep' = Returns cls) pre →
  factory ep = Raises e →
  outcome_of (load_extensions (pre ++ ep :: post) h) = Raises e ∧
  load_extensions (pre ++ ep :: post) h = load_extensions (pre ++ [ep]) h.
Proof.
  intros Hpre Hf.
  assert (Hloop : ∀ rest, ∃ h' t,
    for_in (pre ++ ep :: rest) load_extension [] h = Run h' t (Raises e) ∧
    for_in (pre ++ [ep]) load_extension [] h = Run h' t (Raises e)).
  { intros rest. rewrite !for_in_app.
    destruct (load_loop_returns pre [] h Hpre) as (h' & t & new & -> & _).
    rewrite !for_in_cons.
    destruct (load_extension_raises ep ([] ++ new) h' e Hf) as (t' & -> & _).
    by eexists _, _. }
  destruct (Hloop post) as (h' & t & Hpost & Hone).
  unfold load_extensions. by rewrite !bind_run, Hpost, Hone.
Qed.

Lemma broken_factory_aborts_discovery_witness :
  outcome_of (load_extensions ([ep_a] ++ ep_broken :: [ep_b]) empty_heap) =
    Raises (PyException "ImportError" "No module named broken") ∧
  load_extensions ([ep_a] ++ ep_broken :: [ep_b]) empty_heap =
    load_extensions ([ep_a] ++ [ep_broken]) empty_heap.
Proof.
  apply (broken_factory_aborts_discovery [ep_a] ep_broken [ep_b] empty_heap
           (PyException "ImportError" "No module named broken"));
    [repeat constructor; by eexists|reflexivity].
Defined.

(** ** Properties of filter_enabled_extensions *)

Section FilterProperties.

Variable deserialize : string → outcome bool.
Variable raw_config : gmap string (gmap string string).

Abbreviation step := (filter_enabled_extension deserialize raw_config).
Abbreviation E h := (λ o, enables deserialize raw_config (name_of h o)).
Abbreviation D h := (λ o, disables deserialize raw_config (name_of h o)).

Lemma filter_step_run h o inst ee en dn :
  h !! o = Some inst →
  step o (ee, en, dn) h =
    Run h []
      match classify deserialize raw_config (ext_name (class_of inst)) with
      | Returns true =>
          Returns (ee ++ [o], en ++ [ext_name (class_of inst)], dn)
      | Returns false =>
          Returns (ee, en, dn ++ [ext_name (class_of inst)])
      | Raises e => Raises e
      end.
Proof.
  intros Hl. unfold filter_enabled_extension, classify, getitem.
  munfold. rewrite Hl. cbn.
  destruct (ext_name (class_of inst)) as [s|]; cbn; [|done].
  destruct (raw_config !! s) as [section|]; cbn; [|done].
  destruct (section !! "enabled") as [v|]; cbn; [|done].
  by destruct (deserialize v) as [[]|].
Qed.

Lemma filter_step_heap h o acc :
  heap_of (step o acc h) = h ∧ trace_of (step o acc h) = [].
Proof.
  destruct acc as [[ee en] dn]. destruct (h !! o) as [inst|] eqn:Hl.
  - rewrite (filter_step_run h o inst ee en dn Hl). done.
  - unfold filter_enabled_extension. munfold. by rewrite Hl.
Qed.

Lemma filter_loop_run h exts ee en dn :
  live h exts →
  for_in exts step (ee, en, dn) h =
    Run h []
      match first_error deserialize raw_config (name_of h <$> exts) with
      | Some e => Raises e
      | None =>
          Returns (ee ++ filter (E h) exts,
                   en ++ (name_of h <$> filter (E h) exts),
                   dn ++ (name_of h <$> filter (D h) exts))
      end.
Proof.
  revert ee en dn. induction exts as [|o exts IH]; intros ee en dn Hlive.
  { cbn. by rewrite !app_nil_r. }
  destruct (Hlive o) as [inst Hl]; [by left|].
  rewrite for_in_cons, (filter_step_run h o inst ee en dn Hl).
  assert (Hn : name_of h o = ext_name (class_of inst)).
  { unfold name_of. by rewrite Hl. }
  cbn [fmap list_fmap first_error]. rewrite !filter_cons, Hn.
  destruct (classify deserialize raw_config (ext_name (class_of inst)))
    as [b|e] eqn:Hc; [|done].
  assert (Hen : enables deserialize raw_config (ext_name (class_of inst)) = b).
  { unfold enables. by rewrite Hc. }
  assert (Hdis : disables deserialize raw_config (ext_name (class_of inst)) = negb b).
  { unfold disables. by rewrite Hc. }
  rewrite Hen, Hdis.
  destruct b; cbn;
    rewrite IH by (intros o' Ho'; apply Hlive; by right);
    cbn; (destruct (first_error _ _ _); [done|]);
    cbn; repeat case_decide; try done; cbn; by rewrite ?Hn, <- !app_assoc.
Qed.

Lemma filter_loop_heap h exts acc :
  heap_of (for_in exts step acc h) = h ∧
  trace_of (for_in exts step acc h) = [].
Proof.
  revert acc. induction exts as [|o exts IH]; intros acc; [done|].
  rewrite for_in_cons. destruct (filter_step_heap h o acc) as [Hh Ht].
  destruct (step o acc h) as [h1 t1 [acc'|e]]; cbn in *; subst; [|done].
  destruct (IH acc') as [Hh' Ht'].
  by destruct (for_in exts step acc' h) as [h2 t2 o2]; cbn in *; subst.
Qed.

Lemma classify_returns_name n b :
  classify deserialize raw_config n = Returns b → is_Some n.
Proof. destruct n; [by eexists|done]. Qed.

Lemma classify_entry n :
  classify deserialize raw_config n =
    match enabled_entry raw_config n with
    | Some v => deserialize v
    | None => classify deserialize raw_config n
    end.
Proof.
  unfold classify, enabled_entry. destruct n as [s|]; cbn; [|done].
  destruct (raw_config !! s) as [section|]; cbn; [|done].
  by destruct (section !! "enabled").
Qed.

Lemma classify_missing n :
  enabled_entry raw_config n = None →
  ∃ key, classify deserialize raw_config n = Raises (KeyError key).
Proof.
  unfold classify, enabled_entry. destruct n as [s|]; cbn; [|by eexists].
  destruct (raw_config !! s) as [section|]; cbn; [|by eexists].
  destruct (section !! "enabled"); [done|by eexists].
Qed.

Lemma enabled_names_are_strings h (P : nat → bool) exts :
  (∀ o, P o → is_Some (name_of h o)) →
  Forall is_Some (name_of h <$> filter (λ o, P o) exts).
Proof.
  intros HP. apply Forall_fmap, Forall_forall.
  intros o [Ho _]%list_elem_of_filter. by apply HP.
Qed.

Lemma enables_name n : enables deserialize raw_config n → is_Some n.
Proof.
  unfold enables.
  destruct (classify deserialize raw_config n) eqn:Hc; [|done].
  intros _. by eapply classify_returns_name.
Qed.

Lemma disables_name n : disables deserialize raw_config n → is_Some n.
Proof.
  unfold disables.
  destruct (classify deserialize raw_config n) eqn:Hc; [|done].
  intros _. by eapply classify_returns_name.
Qed.

(** Whatever its input, the filter leaves the object store as it was and
    calls no hook. *)
Lemma filter_enabled_extensions_stable h exts :
  heap_of (filter_enabled_extensions deserialize raw_config exts h) = h ∧
  calls (trace_of (filter_enabled_extensions deserialize raw_config exts h)) = [].
Proof.
  unfold filter_enabled_extensions, filter_enabled_loop. rewrite bind_run.
  destruct (filter_loop_heap h exts ([], [], [])) as [Hh Ht].
  destruct (for_in exts step ([], [], []) h) as [h1 t1 [[[ee en] dn]|e]];
    cbn in Hh, Ht; subst; [|done].
  munfold. destruct (join ", " en); cbn; [|done].
  by destruct (join ", " dn).
Qed.

(** The outcome in terms of the names of the input. *)
Lemma filter_enabled_extensions_run h exts :
  live h exts →
  outcome_of (filter_enabled_extensions deserialize raw_config exts h) =
    match first_error deserialize raw_config (name_of h <$> exts) with
    | Some e => Raises e
    | None => Returns (filter (E h) exts)
    end.
Proof.
  intros Hlive. unfold filter_enabled_extensions, filter_enabled_loop.
  rewrite bind_run, (filter_loop_run h exts [] [] [] Hlive).
  destruct (first_error _ _ _); [done|]. cbn.
  destruct (join_returns ", " _
    (enabled_names_are_strings h _ exts
       (λ o, enables_name (name_of h o)))) as [en Hen].
  destruct (join_returns ", " _
    (enabled_names_are_strings h _ exts
       (λ o, disables_name (name_of h o)))) as [dn Hdn].
  munfold. rewrite Hen. cbn. rewrite Hdn. done.
Qed.

Lemma first_error_None h exts :
  has_enabled_entry raw_config h exts →
  boolean_valued deserialize raw_config h exts →
  first_error deserialize raw_config (name_of h <$> exts) = None.
Proof.
  induction exts as [|o exts IH]; intros He Hb; [done|].
  destruct (He o) as (inst & Hl & v & Hv); [by left|].
  cbn. unfold name_of at 1. rewrite Hl, classify_entry, Hv.
  pose proof (Hb o inst v (list_elem_of_here _ _) Hl Hv) as Hd.
  destruct (deserialize v); [|done].
  apply IH.
  - intros o' Ho'. apply He. by right.
  - intros o' inst' v' Ho'. apply Hb. by right.
Qed.

(** C2: for a store and a configuration in which every extension's name
    has a boolean-valued 'enabled' entry, [filter_enabled_extensions]
    returns normally, leaves the object store unchanged and calls no
    hook; the returned list is a subsequence of the input; the enabled
    names are the names of the returned extensions; and the enabled and
    disabled name sets are disjoint and together are exactly the set of
    input names. *)
Theorem filter_enabled_is_partition h exts :
  has_enabled_entry raw_config h exts →
  boolean_valued deserialize raw_config h exts →
  ∃ enabled_extensions enabled_names disabled_names,
    outcome_of (filter_enabled_loop deserialize raw_config exts h) =
      Returns (enabled_extensions, enabled_names, disabled_names) ∧
    outcome_of (filter_enabled_extensions deserialize raw_config exts h) =
      Returns enabled_extensions ∧
    heap_of (filter_enabled_extensions deserialize raw_config exts h) = h ∧
    calls (trace_of (filter_enabled_extensions deserialize raw_config exts h)) = [] ∧
    enabled_extensions `sublist_of` exts ∧
    enabled_names = name_of h <$> enabled_extensions ∧
    (list_to_set enabled_names : gset (option string)) ##
      list_to_set disabled_names ∧
    (list_to_set enabled_names ∪ list_to_set disabled_names
       : gset (option string)) = list_to_set (name_of h <$> exts).
Proof.
  intros He Hb.
  assert (Hlive : live h exts).
  { intros o Ho. destruct (He o Ho) as (inst & -> & _). by eexists. }
  pose proof (first_error_None h exts He Hb) as Hfe.
  destruct (filter_enabled_extensions_stable h exts) as (Hh & Hc).
  pose proof (filter_enabled_extensions_run h exts Hlive) as Ho.
  rewrite Hfe in Ho.
  exists (filter (E h) exts), (name_of h <$> filter (E h) exts),
    (name_of h <$> filter (D h) exts).
  split_and!; try done.
  - unfold filter_enabled_loop.
    by rewrite (filter_loop_run h exts [] [] [] Hlive), Hfe.
  - apply sublist_filter.
  - apply elem_of_disjoint. intros n.
    rewrite !elem_of_list_to_set, !list_elem_of_fmap.
    intros (o1 & -> & [H1 _]%list_elem_of_filter)
           (o2 & Heq & [H2 _]%list_elem_of_filter).
    cbn in H1, H2. rewrite <- Heq in H2. unfold enables, disables in *.
    by destruct (classify deserialize raw_config (name_of h o1)) as [[]|].
  - apply set_eq. intros n.
    rewrite elem_of_union, !elem_of_list_to_set, !list_elem_of_fmap. split.
    + intros [(o & -> & [_ Hin]%list_elem_of_filter)
             |(o & -> & [_ Hin]%list_elem_of_filter)]; by exists o.
    + intros (o & -> & Hin).
      destruct (He o Hin) as (inst & Hl & v & Hv).
      pose proof (Hb o inst v Hin Hl Hv) as Hd.
      assert (Hn : name_of h o = ext_name (class_of inst)).
      { unfold name_of. by rewrite Hl. }
      assert (Hcl : classify deserialize raw_config (name_of h o) = deserialize v).
      { by rewrite Hn, classify_entry, Hv. }
      destruct (deserialize v) as [[]|] eqn:Hdv; [| |done].
      * left. exists o. split; [done|]. apply list_elem_of_filter.
        split; [|done]. cbn. unfold enables. by rewrite Hcl.
      * right. exists o. split; [done|]. apply list_elem_of_filter.
        split; [|done]. cbn. unfold disables. by rewrite Hcl.
Qed.

Lemma first_error_missing h pre o inst :
  live h pre →
  boolean_valued deserialize raw_config h pre →
  h !! o = Some inst →
  enabled_entry raw_config (ext_name (class_of inst)) = None →
  ∃ key, first_error deserialize raw_config (name_of h <$> pre ++ [o]) =
           Some (KeyError key).
Proof.
  intros Hlive Hb Hl Hmiss.
  induction pre as [|p pre IH]; cbn.
  - unfold name_of. rewrite Hl.
    destruct (classify_missing _ Hmiss) as [key ->]. by exists key.
  - destruct (Hlive p) as [pinst Hp]; [by left|].
    unfold name_of at 1. rewrite Hp.
    destruct (enabled_entry raw_config (ext_name (class_of pinst)))
      as [v|] eqn:Hv.
    + rewrite classify_entry, Hv.
      pose proof (Hb p pinst v (list_elem_of_here _ _) Hp Hv) as Hd.
      destruct (deserialize v); [|done].
      apply IH.
      * intros o' Ho'. apply Hlive. by right.
      * intros o' inst' v' Ho'. apply Hb. by right.
    + destruct (classify_missing _ Hv) as [key ->]. by exists key.
Qed.

(** C10: an extension whose name has no section, or whose section has no
    'enabled' key, makes [filter_enabled_extensions] raise a KeyError
    instead of classifying it, provided the extensions before it are live
    objects whose 'enabled' entries, where present, are boolean-valued:
    nothing is returned or logged, the store is unchanged, and the
    extensions after it play no part in the run. *)
Theorem missing_entry_raises_lookup_error h pre o post inst :
  live h pre →
  boolean_valued deserialize raw_config h pre →
  h !! o = Some inst →
  enabled_entry raw_config (ext_name (class_of inst)) = None →
  (∃ key,
     filter_enabled_extensions deserialize raw_config (pre ++ o :: post) h =
       Run h [] (Raises (KeyError key))) ∧
  filter_enabled_extensions deserialize raw_config (pre ++ o :: post) h =
    filter_enabled_extensions deserialize raw_config (pre ++ [o]) h.
Proof.
  intros Hlive Hb Hl Hmiss.
  destruct (first_error_missing h pre o inst Hlive Hb Hl Hmiss) as [key Hkey].
  assert (Hlive1 : live h (pre ++ [o])).
  { intros o' [?|Ho'%list_elem_of_singleton]%elem_of_app; [auto|].
    subst o'. by eexists. }
  assert (Hloop : for_in (pre ++ [o]) step ([], [], []) h =
                    Run h [] (Raises (KeyError key))).
  { by rewrite (filter_loop_run h _ [] [] [] Hlive1), Hkey. }
  assert (Hrun : ∀ rest,
    filter_enabled_extensions deserialize raw_config
      ((pre ++ [o]) ++ rest) h = Run h [] (Raises (KeyError key))).
  { intros rest. unfold filter_enabled_extensions, filter_enabled_loop.
    rewrite bind_run.
    rewrite (for_in_raises_prefix (pre ++ [o]) rest step _ h (KeyError key));
      by rewrite Hloop. }
  replace (pre ++ o :: post) with ((pre ++ [o]) ++ post)
    by (by rewrite <- app_assoc).
  split.
  - exists key. apply Hrun.
  - rewrite Hrun. specialize (Hrun []). rewrite app_nil_r in Hrun.
    by rewrite Hrun.
Qed.

End FilterProperties.

Ltac each_member H :=
  repeat (apply elem_of_cons in H as [->|H]); [..|by apply elem_of_nil in H].

Lemma filter_enabled_is_partition_witness :
  ∃ enabled_extensions enabled_names disabled_names,
    outcome_of (filter_enabled_loop Boolean_deserialize example_config
                  [0; 2; 3] example_heap) =
      Returns (enabled_extensions, enabled_names, disabled_names) ∧
    outcome_of (filter_enabled_extensions Boolean_deserialize example_config
                  [0; 2; 3] example_heap) = Returns enabled_extensions ∧
    heap_of (filter_enabled_extensions Boolean_deserialize example_config
               [0; 2; 3] example_heap) = example_heap ∧
    calls (trace_of (filter_enabled_extensions Boolean_deserialize
                       example_config [0; 2; 3] example_heap)) = [] ∧
    enabled_extensions `sublist_of` [0; 2; 3] ∧
    enabled_names = name_of example_heap <$> enabled_extensions ∧
    (list_to_set enabled_names : gset (option string)) ##
      list_to_set disabled_names ∧
    (list_to_set enabled_names ∪ list_to_set disabled_names
       : gset (option string)) = list_to_set (name_of example_heap <$> [0; 2; 3]).
Proof.
  apply (filter_enabled_is_partition Boolean_deserialize example_config
           example_heap [0; 2; 3]).
  - intros o Ho. each_member Ho;
      (eexists; split; [reflexivity|]; eexists; vm_compute; reflexivity).
  - intros o inst v Ho Hl Hv. each_member Ho;
      vm_compute in Hl; injection Hl as <-; vm_compute in Hv;
      injection Hv as <-; vm_compute; exact I.
Defined.

Lemma missing_entry_raises_lookup_error_witness :
  (∃ key,
     filter_enabled_extensions Boolean_deserialize example_config
       ([0; 2] ++ 1 :: [3]) example_heap =
     Run example_heap [] (Raises (KeyError key))) ∧
  filter_enabled_extensions Boolean_deserialize example_config
    ([0; 2] ++ 1 :: [3]) example_heap =
  filter_enabled_extensions Boolean_deserialize example_config
    ([0; 2] ++ [1]) example_heap.
Proof.
  apply (missing_entry_raises_lookup_error Boolean_deserialize example_config
           example_heap [0; 2] 1 [3]
           {| class_of := cls_c; entry_point := Some ep_b |}).
  - intros o Ho. each_member Ho; eexists; reflexivity.
  - intros o inst v Ho Hl Hv. each_member Ho;
      vm_compute in Hl; injection Hl as <-; vm_compute in Hv;
      injection Hv as <-; vm_compute; exact I.
  - reflexivity.
  - reflexivity.
Defined.

(** The spec's scenarios for the filter: one extension enabled with
    ["true"], one disabled with ["false"]. *)
Example filter_scenario_enabled :
  filter_enabled_extensions Boolean_deserialize example_config [0] example_heap =
    Run example_heap
      [Log RootLogger INFO "Enabled extensions: %s" [VStr "a"];
       Log RootLogger INFO "Disabled extensions: %s" [VStr "none"]]
      (Returns [0]).
Proof. vm_compute. reflexivity. Qed.

Example filter_scenario_disabled :
  filter_enabled_extensions Boolean_deserialize example_config [2] example_heap =
    Run example_heap
      [Log RootLogger INFO "Enabled extensions: %s" [VStr "none"];
       Log RootLogger INFO "Disabled extensions: %s" [VStr "d"]]
      (Returns []).
Proof. vm_compute. reflexivity. Qed.

(** A malformed 'enabled' value is not handled by the filter: the
    deserializer's exception propagates. *)
Example filter_malformed_value :
  outcome_of (filter_enabled_extensions Boolean_deserialize example_config
                [0; 4] example_heap) =
    Raises (ValueError "invalid value for boolean").
Proof. vm_compute. reflexivity. Qed.

(** ** Determinism of the pipeline *)

Lemma load_loop_raises reg installed h e :
  first_broken reg = Some e →
  outcome_of (for_in reg load_extension installed h) = Raises e.
Proof.
  revert installed h. induction reg as [|ep reg IH]; intros installed h; [done|].
  cbn [first_broken]. rewrite for_in_cons.
  destruct (factory ep) as [cls|e'] eqn:Hf.
  - destruct (load_extension_returns ep installed h cls Hf) as (t & -> & _).
    intros Hb. specialize (IH (installed ++ [fresh (dom h)])
                             (<[fresh (dom h) := discovered ep cls]> h) Hb).
    by destruct (for_in reg load_extension _ _).
  - intros [= ->].
    by destruct (load_extension_raises ep installed h e Hf) as (t & -> & _).
Qed.

Lemma first_broken_None reg :
  first_broken reg = None → Forall (λ ep, ∃ cls, factory ep = Returns cls) reg.
Proof.
  induction reg as [|ep reg IH]; [constructor|]. cbn.
  destruct (factory ep) as [cls|] eqn:Hf; [|done].
  intros Hb. constructor; [by exists cls|by apply IH].
Qed.

Lemma discovered_in_store (h' : gmap nat Instance) new reg :
  Forall2 (λ o ep, ∃ cls, factory ep = Returns cls ∧
                          h' !! o = Some (discovered ep cls)) new reg →
  Forall2 (λ o i, h' !! o = Some i) new (discovered_instances reg).
Proof.
  induction 1 as [|o ep new reg (cls & Hf & Hl) _ IH]; [constructor|].
  unfold discovered_instances. cbn. rewrite Hf. cbn. by constructor.
Qed.

Lemma stored_names (h : gmap nat Instance) l insts :
  Forall2 (λ o i, h !! o = Some i) l insts →
  name_of h <$> l = inst_name <$> insts.
Proof.
  induction 1 as [|o i l insts Hl _ IH]; [done|].
  cbn. unfold name_of at 1. by rewrite Hl, IH.
Qed.

Lemma stored_live (h : gmap nat Instance) l insts :
  Forall2 (λ o i, h !! o = Some i) l insts → live h l.
Proof.
  intros HF o [k Hk]%list_elem_of_lookup.
  destruct (Forall2_lookup_l _ _ _ _ _ HF Hk) as (i & _ & Hi). by eexists.
Qed.

Lemma stored_filter_accepted (h : gmap nat Instance) l insts :
  Forall2 (λ o i, h !! o = Some i) l insts →
  Forall2 (λ o i, h !! o = Some i)
    (filter (λ o, accepts h o) l) (filter (λ i, accepted i) insts).
Proof.
  induction 1 as [|o i l insts Hl _ IH]; [constructor|].
  assert (Ha : accepts h o = accepted i) by by apply accepts_lookup.
  rewrite !filter_cons, Ha. case_decide; [by constructor|done].
Qed.

Lemma validate_loop_pure (h : gmap nat Instance) l insts valid :
  Forall2 (λ o i, h !! o = Some i) l insts →
  outcome_of (for_in l validate_extension valid h) =
    match first_abort insts with
    | Some e => Raises e
    | None => Returns (valid ++ filter (λ o, accepts h o) l)
    end.
Proof.
  intros HF. revert valid.
  induction HF as [|o i l insts Hl _ IH]; intros valid.
  { cbn. by rewrite app_nil_r. }
  rewrite for_in_cons.
  pose proof (validate_extension_heap o valid h) as Hh.
  pose proof (validate_extension_outcome h o i valid Hl) as Ho.
  rewrite filter_cons, (accepts_lookup h o i Hl). cbn [first_abort].
  destruct (validate_extension o valid h) as [h1 t1 [s'|e]]; cbn in *; subst.
  - specialize (IH s').
    destruct (for_in l validate_extension s' h) as [h2 t2 o2]; cbn in *.
    rewrite IH.
    destruct (check i); cbn in *; simplify_eq;
      (destruct (first_abort insts); [done|]);
      repeat case_decide; try done. by rewrite <- app_assoc.
  - by destruct (check i); cbn in *; simplify_eq.
Qed.

Lemma filter_names {A} (f : A → option string) (P : option string → bool)
    (l : list A) :
  f <$> filter (λ x, P (f x)) l = filter (λ n, P n) (f <$> l).
Proof.
  induction l as [|x l IH]; [done|].
  cbn [fmap list_fmap]. rewrite !filter_cons.
  destruct (P (f x)); cbn; repeat case_decide; try done; cbn; by rewrite IH.
Qed.

Section PipelineProperties.

Variable deserialize : string → outcome bool.

(** The names that the pipeline yields, and whether it raises, depend on
    the registry and the configuration only, not on the store it starts
    from. *)
Lemma pipeline_run reg raw_config h :
  ∃ h' t out,
    pipeline deserialize reg raw_config h = Run h' t out ∧
    match out with
    | Returns l => Returns (name_of h' <$> l)
    | Raises e => Raises e
    end = pipeline_names deserialize raw_config reg.
Proof.
  unfold pipeline, pipeline_names.
  rewrite bind_run. unfold load_extensions. rewrite bind_run.
  destruct (first_broken reg) as [e|] eqn:Hb.
  { pose proof (load_loop_raises reg [] h e Hb) as Hr.
    destruct (for_in reg load_extension [] h) as [h1 t1 [?|?]];
      cbn in *; simplify_eq. by eexists _, _, _. }
  destruct (load_loop_returns reg [] h (first_broken_None reg Hb))
    as (h' & t & new & -> & HF2 & _).
  cbn [app].
  assert (Hst : Forall2 (λ o i, h' !! o = Some i) new
                  (discovered_instances reg)).
  { apply discovered_in_store. eapply Forall2_impl; [exact HF2|].
    intros o ep (cls & ? & _ & ?). by exists cls. }
  rewrite bind_run, (ext_names_run new h' (stored_live _ _ _ Hst)).
  rewrite (stored_names _ _ _ Hst).
  destruct (join ", " (inst_name <$> discovered_instances reg)) as [s|e];
    munfold; [|by eexists _, _, _].
  rewrite validate_extensions_run.
  pose proof (validate_loop_pure h' new _ [] Hst) as Hv.
  destruct (for_in new validate_extension [] h') as [h2 t2 o2]; cbn in Hv.
  destruct (first_abort (discovered_instances reg)) as [e|]; subst o2;
    [by eexists _, _, _|].
  cbn [app].
  pose proof (stored_filter_accepted _ _ _ Hst) as Hst'.
  destruct (join_returns ", " _ (accepted_names_are_strings h' new)) as [j ->].
  destruct (filter_enabled_extensions_stable deserialize raw_config h'
              (filter (λ o, accepts h' o) new)) as (Hh & _).
  pose proof (filter_enabled_extensions_run deserialize raw_config h' _
                (stored_live _ _ _ Hst')) as Ho.
  destruct (filter_enabled_extensions deserialize raw_config
              (filter (λ o, accepts h' o) new) h') as [h3 t3 o3];
    cbn in Hh, Ho; subst.
  eexists _, _, _. split; [done|].
  rewrite (stored_names _ _ _ Hst').
  destruct (first_error deserialize raw_config _); [done|].
  by rewrite (filter_names (name_of h') (enables deserialize raw_config)),
    (stored_names _ _ _ Hst').
Qed.

Lemma pipeline_names_correct reg raw_config h :
  enabled_names_of (pipeline deserialize reg raw_config h) =
    pipeline_names deserialize raw_config reg.
Proof.
  destruct (pipeline_run reg raw_config h) as (h' & t & out & -> & <-).
  done.
Qed.

(** C9: running the pipeline a second time, in the store left by the
    first run, against the same registry and configuration yields the
    same enabled names (hence the same name set), or raises the same
    exception; the same holds from any two stores. *)
Theorem pipeline_is_deterministic reg raw_config h :
  enabled_names_of
    (pipeline deserialize reg raw_config
       (heap_of (pipeline deserialize reg raw_config h))) =
  enabled_names_of (pipeline deserialize reg raw_config h) ∧
  ∀ h1 h2,
    enabled_names_of (pipeline deserialize reg raw_config h1) =
    enabled_names_of (pipeline deserialize reg raw_config h2).
Proof.
  split; [|intros h1 h2]; by rewrite !pipeline_names_correct.
Qed.

End PipelineProperties.

(** The spec's scenario: [a] is valid and enabled; [b] reports another
    name, [d] lacks a dependency and [e] rejects its environment. *)
Example pipeline_scenario :
  enabled_names_of
    (pipeline Boolean_deserialize [ep_a; ep_b; ep_d; ep_e] example_config
       empty_heap) = Returns [Some "a"].
Proof. vm_compute. reflexivity. Qed.

(** ** Scenarios *)

(** [a] passes every check; the entry point [b] resolves to an extension
    that calls itself [c] and is dropped with a warning naming both. *)
Example validate_scenario_mismatch :
  validate_extensions [0; 1] example_heap =
    Run example_heap
      [Log MopidyExtLogger DEBUG "Validating extension: %s" [VStr "a"];
       CallRequire ep_a;
       CallValidateEnvironment 0;
       Log MopidyExtLogger DEBUG "Validating extension: %s" [VStr "c"];
       Log MopidyExtLogger WARNING
         "Disabled extension %(ep)s: entry point name (%(ep)s) does not match extension name (%(ext)s)"
         [VStr "b"; VStr "c"];
       Log MopidyExtLogger DEBUG "Valid extensions: %s" [VStr "a"]]
      (Returns [0]).
Proof. vm_compute. reflexivity. Qed.

(** [d] lacks a dependency: it is dropped at informational level, its
    environment hook is not called, and [a] survives. *)
Example validate_scenario_dependency :
  validate_extensions [2; 0] example_heap =
    Run example_heap
      [Log MopidyExtLogger DEBUG "Validating extension: %s" [VStr "d"];
       CallRequire ep_d;
       Log MopidyExtLogger INFO "Disabled extension %s: Dependency %s not found"
         [VStr "d"; VExn (DistributionNotFound "pyspotify")];
       Log MopidyExtLogger DEBUG "Validating extension: %s" [VStr "a"];
       CallRequire ep_a;
       CallValidateEnvironment 0;
       Log MopidyExtLogger DEBUG "Valid extensions: %s" [VStr "a"]]
      (Returns [0]).
Proof. vm_compute. reflexivity. Qed.

(** A class that keeps [ext_name = None] is instantiated like any other,
    but the summary line of [load_extensions] cannot join its name. *)
Example load_unnamed_extension :
  outcome_of (for_in [ep_a; ep_anon] load_extension [] empty_heap) =
    Returns [0; 1] ∧
  outcome_of (load_extensions [ep_a; ep_anon] empty_heap) =
    Raises (TypeError "sequence item: expected string, NoneType found").
Proof. split; vm_compute; reflexivity. Qed.

(** * Further properties *)

(** ** validate_extensions *)

Lemma validate_extension_events o valid h :
  Forall validator_event (trace_of (validate_extension o valid h)).
Proof.
  destruct (h !! o) as [inst|] eqn:Hl.
  - unfold validate_extension, entry_point_require, call_validate_environment.
    munfold. rewrite ?Hl. cbn.
    destruct (entry_point inst) as [ep|]; cbn; [|by repeat constructor].
    case_decide; cbn; [by repeat constructor|].
    destruct (ep_require ep) as [[]|[]]; cbn; try by repeat constructor.
    rewrite ?Hl. cbn.
    destruct (validate_environment (class_of inst)) as [[]|[]]; cbn;
      by repeat constructor.
  - unfold validate_extension. munfold. rewrite Hl. constructor.
Qed.

Lemma validate_loop_events exts valid h :
  Forall validator_event (trace_of (for_in exts validate_extension valid h)).
Proof.
  revert valid. induction exts as [|o exts IH]; intros valid; [constructor|].
  rewrite for_in_cons.
  pose proof (validate_extension_heap o valid h) as Hh.
  pose proof (validate_extension_events o valid h) as He.
  destruct (validate_extension o valid h) as [h1 t1 [s'|e]]; cbn in *; subst;
    [|done].
  specialize (IH s').
  destruct (for_in exts validate_extension s' h) as [h2 t2 o2]; cbn in *.
  by apply Forall_app.
Qed.

(** X1: whatever its input, and whether it returns or raises,
    [validate_extensions] leaves the object store as it was, and all it
    does is log on the module's logger and call [require()] and
    [validate_environment()]: it never loads an entry point, never
    instantiates a class and never logs on the root logger. *)
Theorem validate_extensions_only_validates exts h :
  heap_of (validate_extensions exts h) = h ∧
  Forall validator_event (trace_of (validate_extensions exts h)).
Proof.
  rewrite validate_extensions_run.
  pose proof (validate_loop_events exts [] h) as He.
  destruct (for_in exts validate_extension [] h) as [h1 t1 [out|e]];
    cbn in He; [|done].
  destruct (join ", " (name_of h <$> out)); cbn; [|done].
  split; [done|]. apply Forall_app. split; [done|]. by repeat constructor.
Qed.

Lemma check_accept_iff inst : check inst = Accept ↔ passes_checks inst.
Proof.
  unfold check, passes_checks. split.
  - destruct (entry_point inst) as [ep|]; [|done].
    case_decide as Hn; [done|].
    destruct (ep_require ep) as [[]|[]] eqn:Hr; try done.
    destruct (validate_environment (class_of inst)) as [[]|[]] eqn:Hv;
      try done.
    intros _. by exists ep.
  - intros (ep & -> & Hn & -> & ->). by case_decide.
Qed.

(** X2: when [validate_extensions] returns, an extension is in the result
    exactly when it is in the input and passes all three checks: its name
    is its entry point's name, [require()] returns and
    [validate_environment()] returns. *)
Theorem validated_iff_passes_checks h exts out o :
  outcome_of (validate_extensions exts h) = Returns out →
  o ∈ out ↔ o ∈ exts ∧ ∃ inst, h !! o = Some inst ∧ passes_checks inst.
Proof.
  intros (-> & _)%validate_extensions_returns.
  rewrite list_elem_of_filter. unfold accepts, accepted. split.
  - intros [Ha Hin]. split; [done|].
    destruct (h !! o) as [inst|]; [|done]. exists inst. split; [done|].
    apply check_accept_iff. by destruct (check inst).
  - intros [Hin (inst & -> & Hc%check_accept_iff)]. by rewrite Hc.
Qed.

Lemma validated_iff_passes_checks_witness :
  0 ∈ [0] ↔ 0 ∈ [0; 1; 2; 3] ∧
            ∃ inst, example_heap !! 0 = Some inst ∧ passes_checks inst.
Proof.
  apply (validated_iff_passes_checks example_heap [0; 1; 2; 3] [0] 0).
  vm_compute. reflexivity.
Defined.

Lemma filter_all {A} (P : A → Prop) `{∀ x, Decision (P x)} (l : list A) :
  Forall P l → filter P l = l.
Proof.
  induction 1 as [|x l Hx _ IH]; [done|].
  by rewrite filter_cons, decide_True, IH.
Qed.

(** X3: validation is idempotent: validating the list that
    [validate_extensions] returned returns that list again. *)
Theorem validate_extensions_idempotent h exts out :
  outcome_of (validate_extensions exts h) = Returns out →
  outcome_of (validate_extensions out h) = Returns out.
Proof.
  intros (-> & _)%validate_extensions_returns.
  rewrite validate_extensions_outcome.
  assert (Hacc : Forall (λ o, accepts h o) (filter (λ o, accepts h o) exts)).
  { apply Forall_forall. by intros o [Ha _]%list_elem_of_filter. }
  rewrite validate_loop_all_expected.
  - cbn. by rewrite filter_all.
  - eapply Forall_impl; [exact Hacc|]. intros o Ha. unfold accepts, accepted in Ha.
    destruct (h !! o) as [inst|] eqn:Hl; [|done]. exists inst. split; [done|].
    intros e He. by rewrite He in Ha.
Qed.

Lemma validate_extensions_idempotent_witness :
  outcome_of (validate_extensions [0] example_heap) = Returns [0].
Proof.
  apply (validate_extensions_idempotent example_heap [0; 1; 2; 3] [0]).
  vm_compute. reflexivity.
Defined.

Lemma validate_extension_acc o valid h :
  outcome_of (validate_extension o valid h) =
    outcome_app (Returns valid) (outcome_of (validate_extension o [] h)).
Proof.
  destruct (h !! o) as [inst|] eqn:Hl.
  - rewrite !(validate_extension_outcome h o inst _ Hl).
    destruct (check inst); cbn; by rewrite ?app_nil_r.
  - unfold validate_extension. munfold. by rewrite Hl.
Qed.

Lemma validate_loop_acc exts valid h :
  outcome_of (for_in exts validate_extension valid h) =
    outcome_app (Returns valid)
      (outcome_of (for_in exts validate_extension [] h)).
Proof.
  revert valid. induction exts as [|o exts IH]; intros valid.
  { cbn. by rewrite app_nil_r. }
  rewrite !for_in_cons.
  pose proof (validate_extension_heap o valid h) as Hh.
  pose proof (validate_extension_heap o [] h) as Hh0.
  pose proof (validate_extension_acc o valid h) as Ha.
  destruct (validate_extension o valid h) as [h1 t1 o1].
  destruct (validate_extension o [] h) as [h0 t0 o0]. cbn in *. subst.
  destruct o0 as [l0|e]; [|done].
  pose proof (IH (valid ++ l0)) as IH1. pose proof (IH l0) as IH0.
  destruct (for_in exts validate_extension (valid ++ l0) h) as [h2 t2 o2].
  destruct (for_in exts validate_extension l0 h) as [h3 t3 o3].
  cbn in *. subst.
  destruct (outcome_of (for_in exts validate_extension [] h)); cbn; [|done].
  by rewrite app_assoc.
Qed.

(** X4: validation works through a list part by part: the outcome on
    [l1 ++ l2] is the exception of [l1] if it raises, else the exception of
    [l2] if it raises, else the two results appended. *)
Theorem validate_extensions_app h l1 l2 :
  outcome_of (validate_extensions (l1 ++ l2) h) =
    outcome_app (outcome_of (validate_extensions l1 h))
                (outcome_of (validate_extensions l2 h)).
Proof.
  rewrite !validate_extensions_outcome, for_in_app.
  pose proof (validate_loop_heap l1 [] h) as Hh.
  destruct (for_in l1 validate_extension [] h) as [h1 t1 [o1|e]];
    cbn in *; subst; [|done].
  pose proof (validate_loop_acc l2 o1 h) as Ha.
  destruct (for_in l2 validate_extension o1 h) as [h2 t2 o2]; cbn in *.
  by subst.
Qed.






Lemma strings_of_returns (names : list (option string)) (l : list string) :
  strings_of names = Returns l → names = Some <$> l.
Proof.
  revert l. induction names as [|[s|] names IH]; intros l; cbn.
  - by intros [= <-].
  - destruct (strings_of names) as [l'|]; [|done].
    intros [= <-]. by rewrite (IH l').
  - done.
Qed.

(** X7: when [validate_extensions] returns, the last thing it did was to
    log, at debug level on the module's logger, the names of the
    surviving extensions, in order, joined by a comma and a space. *)
Theorem validate_extensions_summary h exts out :
  outcome_of (validate_extensions exts h) = Returns out →
  ∃ names : list string,
    name_of h <$> out = Some <$> names ∧
    last (trace_of (validate_extensions exts h)) =
      Some (Log MopidyExtLogger DEBUG "Valid extensions: %s"
              [VStr (String.concat ", " names)]).
Proof.
  rewrite validate_extensions_run.
  destruct (for_in exts validate_extension [] h) as [h1 t1 [out'|e]]; [|done].
  unfold join.
  destruct (strings_of (name_of h <$> out')) as [names|e] eqn:Hs; [|done].
  cbn. intros [= <-]. exists names. split.
  - by apply strings_of_returns.
  - by rewrite last_snoc.
Qed.

Lemma validate_extensions_summary_witness :
  ∃ names : list string,
    name_of example_heap <$> [0] = Some <$> names ∧
    last (trace_of (validate_extensions [0; 1; 2; 3] example_heap)) =
      Some (Log MopidyExtLogger DEBUG "Valid extensions: %s"
              [VStr (String.concat ", " names)]).
Proof.
  apply (validate_extensions_summary example_heap [0; 1; 2; 3] [0]).
  vm_compute. reflexivity.
Defined.

(** ** load_extensions *)

Lemma load_extensions_effects reg h :
  heap_of (load_extensions reg h) = heap_of (for_in reg load_extension [] h) ∧
  calls (trace_of (load_extensions reg h)) =
    calls (trace_of (for_in reg load_extension [] h)).
Proof.
  unfold load_extensions. rewrite bind_run.
  destruct (for_in reg load_extension [] h) as [h1 t1 [new|e]]; [|done].
  rewrite bind_run. destruct (ext_names_stable new h1) as [Hh Ht].
  destruct (ext_names new h1) as [h2 t2 [names|e]]; cbn in Hh, Ht; subst.
  - munfold. destruct (join ", " names); cbn.
    + split; [done|]. rewrite calls_app. cbn. by rewrite app_nil_r.
    + by rewrite app_nil_r.
  - by rewrite app_nil_r.
Qed.

Lemma load_extension_calls ep installed h cls :
  factory ep = Returns cls →
  calls (trace_of (load_extension ep installed h)) =
    [CallLoad ep false; CallConstruct cls].
Proof.
  unfold factory, load_extension, entry_point_load, instantiate,
    setattr_entry_point, alloc.
  intros Hf. munfold. destruct (ep_resolve ep) as [cls'|e']; [|done]. cbn.
  destruct (construct cls') as [[]|e']; [|done]. simplify_eq. cbn.
  rewrite lookup_insert_eq. cbn. rewrite insert_insert_eq.
  rewrite !lookup_insert_eq. done.
Qed.

Lemma load_loop_effects reg installed h :
  Forall (λ ep, ∃ cls, factory ep = Returns cls) reg →
  size (heap_of (for_in reg load_extension installed h)) =
    size h + length reg ∧
  calls (trace_of (for_in reg load_extension installed h)) =
    concat (discovery_calls <$> reg).
Proof.
  intros HF. revert installed h.
  induction HF as [|ep reg [cls Hf] _ IH]; intros installed h.
  { cbn. split; [lia|done]. }
  rewrite for_in_cons.
  pose proof (load_extension_calls ep installed h cls Hf) as Hc.
  destruct (load_extension_returns ep installed h cls Hf) as (t1 & Hrun & _).
  rewrite Hrun in Hc |- *. cbn [trace_of] in Hc.
  destruct (IH (installed ++ [fresh (dom h)])
               (<[fresh (dom h) := discovered ep cls]> h)) as [IHs IHc].
  destruct (for_in reg load_extension _ _) as [h2 t2 o2];
    cbn [heap_of trace_of fmap list_fmap concat length] in *.
  split.
  - rewrite IHs, map_size_insert_None by apply fresh_not_allocated. lia.
  - rewrite calls_app, Hc, IHc. unfold discovery_calls at 2. by rewrite Hf.
Qed.

(** X8: when every factory instantiates, [load_extensions] calls, for each
    registration record in enumeration order, [load(require=False)] and
    then the class it resolved to, and nothing else; this holds whether or
    not the call goes on to return. *)
Theorem discovery_calls_in_enumeration_order reg h :
  Forall (λ ep, ∃ cls, factory ep = Returns cls) reg →
  calls (trace_of (load_extensions reg h)) = concat (discovery_calls <$> reg).
Proof.
  intros HF. destruct (load_extensions_effects reg h) as [_ ->].
  by apply load_loop_effects.
Qed.

Lemma discovery_calls_in_enumeration_order_witness :
  calls (trace_of (load_extensions [ep_a; ep_d] empty_heap)) =
    concat (discovery_calls <$> [ep_a; ep_d]).
Proof.
  apply (discovery_calls_in_enumeration_order [ep_a; ep_d] empty_heap).
  repeat constructor; by eexists.
Defined.

(** X9: when every factory instantiates, [load_extensions] adds exactly one
    object per registration record to the store, also when it then fails
    to log its summary. *)
Theorem discovery_allocates_one_object_per_record reg h :
  Forall (λ ep, ∃ cls, factory ep = Returns cls) reg →
  size (heap_of (load_extensions reg h)) = size h + length reg.
Proof.
  intros HF. destruct (load_extensions_effects reg h) as [-> _].
  by apply load_loop_effects.
Qed.

Lemma discovery_allocates_one_object_per_record_witness :
  size (heap_of (load_extensions [ep_a; ep_anon] example_heap)) =
    size example_heap + length [ep_a; ep_anon].
Proof.
  apply (discovery_allocates_one_object_per_record [ep_a; ep_anon] example_heap).
  repeat constructor; by eexists.
Defined.

Lemma strings_of_None (names : list (option string)) :
  None ∈ names → ∃ msg, strings_of names = Raises (TypeError msg).
Proof.
  induction names as [|[s|] names IH].
  - by intros ?%elem_of_nil.
  - intros [?|Hin]%elem_of_cons; [done|]. cbn.
    destruct (IH Hin) as [msg ->]. by exists msg.
  - intros _. cbn. by eexists.
Qed.

(** X10: when every factory instantiates but some class leaves [ext_name]
    at [None], [load_extensions] raises TypeError while joining the names
    for its summary line: no list is returned although every record was
    instantiated. *)
Theorem unnamed_extension_breaks_discovery reg h :
  Forall (λ ep, ∃ cls, factory ep = Returns cls) reg →
  Exists (λ ep, ∃ cls, factory ep = Returns cls ∧ ext_name cls = None) reg →
  ∃ msg, outcome_of (load_extensions reg h) = Raises (TypeError msg).
Proof.
  intros HF HE.
  destruct (load_loop_returns reg [] h HF) as (h' & t & new & Hrun & HF2 & _).
  cbn in Hrun.
  assert (Hst : Forall2 (λ o i, h' !! o = Some i) new
                  (discovered_instances reg)).
  { apply discovered_in_store. eapply Forall2_impl; [exact HF2|].
    intros o ep (cls & ? & _ & ?). by exists cls. }
  assert (Hnone : None ∈ inst_name <$> discovered_instances reg).
  { clear -HE. induction HE as [ep reg (cls & Hf & Hn)|ep reg _ IH].
    - unfold discovered_instances. cbn. rewrite Hf. cbn.
      unfold inst_name at 1. cbn. rewrite Hn. left.
    - unfold discovered_instances. cbn.
      destruct (factory ep); cbn; [by right|done]. }
  destruct (strings_of_None _ Hnone) as [msg Hs].
  exists msg. unfold load_extensions.
  rewrite bind_run, Hrun, bind_run.
  rewrite (ext_names_run new h' (stored_live _ _ _ Hst)).
  rewrite (stored_names _ _ _ Hst). munfold. unfold join. by rewrite Hs.
Qed.

Lemma unnamed_extension_breaks_discovery_witness :
  ∃ msg, outcome_of (load_extensions [ep_a; ep_anon] empty_heap) =
           Raises (TypeError msg).
Proof.
  apply (unnamed_extension_breaks_discovery [ep_a; ep_anon] empty_heap).
  - repeat constructor; by eexists.
  - apply Exists_cons_tl, Exists_cons_hd. by eexists.
Defined.

Lemma first_abort_Some insts e :
  first_abort insts = Some e → ∃ i, i ∈ insts ∧ check i = Abort e.
Proof.
  induction insts as [|i insts IH]; [done|]. cbn.
  destruct (check i) as [|k|e'] eqn:Hc.
  - intros (i' & ? & ?)%IH. exists i'. split; [by right|done].
  - intros (i' & ? & ?)%IH. exists i'. split; [by right|done].
  - intros [= ->]. exists i. split; [by left|done].
Qed.

Lemma discovered_instances_elem i reg :
  i ∈ discovered_instances reg →
  ∃ ep cls, ep ∈ reg ∧ factory ep = Returns cls ∧ i = discovered ep cls.
Proof.
  unfold discovered_instances. rewrite list_elem_of_omap.
  intros (ep & Hin & Hf). destruct (factory ep) as [cls|] eqn:Hfe; [|done].
  exists ep, cls. by simplify_eq.
Qed.

(** X11: validation of what discovery returned can only fail through a
    hook: when [load_extensions] returns a list and [validate_extensions]
    raises on it, the exception was raised by the [require()] of one of the
    registry's entry points or by the [validate_environment()] of the
    class it resolves to.  In particular every discovered extension
    carries its [entry_point]. *)
Theorem discovered_extensions_fail_only_in_hooks reg h out e :
  outcome_of (load_extensions reg h) = Returns out →
  outcome_of (validate_extensions out (heap_of (load_extensions reg h))) =
    Raises e →
  ∃ ep, ep ∈ reg ∧
    (ep_require ep = Raises e ∨
     ∃ cls, ep_resolve ep = Returns cls ∧ validate_environment cls = Raises e).
Proof.
  destruct (first_broken reg) as [e'|] eqn:Hb.
  { pose proof (load_loop_raises reg [] h e' Hb) as Hr.
    unfold load_extensions. rewrite bind_run.
    by destruct (for_in reg load_extension [] h) as [h1 t1 [?|?]]. }
  destruct (load_loop_returns reg [] h (first_broken_None reg Hb))
    as (h' & t & new & Hrun & HF2 & _).
  cbn in Hrun.
  assert (Hst : Forall2 (λ o i, h' !! o = Some i) new
                  (discovered_instances reg)).
  { apply discovered_in_store. eapply Forall2_impl; [exact HF2|].
    intros o ep (cls & ? & _ & ?). by exists cls. }
  unfold load_extensions.
  rewrite bind_run, Hrun, bind_run.
  rewrite (ext_names_run new h' (stored_live _ _ _ Hst)). munfold.
  destruct (join ", " (name_of h' <$> new)); cbn; [|done].
  intros [= <-]. rewrite validate_extensions_outcome.
  rewrite (validate_loop_pure h' new _ [] Hst).
  destruct (first_abort (discovered_instances reg)) as [e'|] eqn:Ha; [|done].
  intros [= ->].
  destruct (first_abort_Some _ _ Ha) as (i & Hin & Hc).
  destruct (discovered_instances_elem i reg Hin) as (ep & cls & Hep & Hf & ->).
  exists ep. split; [done|].
  unfold factory in Hf. destruct (ep_resolve ep) as [cls'|] eqn:Hres; [|done].
  destruct (construct cls'); [|done]. simplify_eq.
  unfold check, discovered in Hc. cbn in Hc. case_decide; [done|].
  destruct (ep_require ep) as [[]|e1] eqn:Hr.
  - right. exists cls. split; [done|].
    destruct (validate_environment cls) as [[]|e2]; [done|].
    by destruct e2; simplify_eq.
  - left. by destruct e1; simplify_eq.
Qed.

Lemma discovered_extensions_fail_only_in_hooks_witness :
  ∃ ep, ep ∈ [ep_a; ep_x] ∧
    (ep_require ep = Raises (PyException "RuntimeError" "boom") ∨
     ∃ cls, ep_resolve ep = Returns cls ∧
            validate_environment cls = Raises (PyException "RuntimeError" "boom")).
Proof.
  apply (discovered_extensions_fail_only_in_hooks [ep_a; ep_x] empty_heap
           [0; 1] (PyException "RuntimeError" "boom"));
    vm_compute; reflexivity.
Defined.

(** ** filter_enabled_extensions *)

Section FilterFurther.

Variable deserialize : string → outcome bool.
Variable raw_config : gmap string (gmap string string).

Abbreviation fstep := (filter_enabled_extension deserialize raw_config).
Abbreviation En h := (λ o, enables deserialize raw_config (name_of h o)).
Abbreviation Dis h := (λ o, disables deserialize raw_config (name_of h o)).

(** X12: whatever the input list, the configuration and the deserializer,
    and whether it returns or raises, [filter_enabled_extensions] leaves
    the object store as it was and does nothing but log informational
    records on the root logger: it calls no hook of an extension or of an
    entry point. *)
Theorem filter_enabled_extensions_only_logs h exts :
  heap_of (filter_enabled_extensions deserialize raw_config exts h) = h ∧
  Forall filter_event
    (trace_of (filter_enabled_extensions deserialize raw_config exts h)).
Proof.
  unfold filter_enabled_extensions, filter_enabled_loop. rewrite bind_run.
  destruct (filter_loop_heap deserialize raw_config h exts ([], [], []))
    as [Hh Ht].
  destruct (for_in exts fstep ([], [], []) h) as [h1 t1 [[[ee en] dn]|e]];
    cbn in Hh, Ht; subst; [|done].
  munfold. destruct (join ", " en); cbn; [|done].
  destruct (join ", " dn); cbn; by repeat constructor.
Qed.

Lemma filter_loop_returns_live h exts acc r :
  outcome_of (for_in exts fstep acc h) = Returns r → live h exts.
Proof.
  revert acc. induction exts as [|o exts IH]; intros acc.
  { by intros _ o' ?%elem_of_nil. }
  rewrite for_in_cons.
  destruct (h !! o) as [inst|] eqn:Hl.
  - destruct (filter_step_heap deserialize raw_config h o acc) as [Hh _].
    destruct (fstep o acc h) as [h1 t1 [acc'|e]]; cbn in Hh; subst; [|done].
    specialize (IH acc').
    destruct (for_in exts fstep acc' h) as [h2 t2 o2]; cbn in *.
    intros Hr o' [->|Hin]%elem_of_cons; [by eexists|by apply IH].
  - destruct acc as [[ee en] dn].
    unfold filter_enabled_extension. munfold. by rewrite Hl.
Qed.

Lemma filter_returns h exts out :
  outcome_of (filter_enabled_extensions deserialize raw_config exts h) =
    Returns out →
  live h exts ∧
  first_error deserialize raw_config (name_of h <$> exts) = None ∧
  out = filter (En h) exts.
Proof.
  intros Hout.
  assert (Hlive : live h exts).
  { revert Hout. unfold filter_enabled_extensions, filter_enabled_loop.
    rewrite bind_run.
    destruct (for_in exts fstep ([], [], []) h) as [h1 t1 [r|e]] eqn:Hloop;
      [|done].
    intros _. apply (filter_loop_returns_live h exts ([], [], []) r).
    by rewrite Hloop. }
  split; [done|].
  rewrite (filter_enabled_extensions_run deserialize raw_config h exts Hlive)
    in Hout.
  destruct (first_error _ _ _); by simplify_eq.
Qed.

Lemma enables_iff n :
  enables deserialize raw_config n ↔
  ∃ v, enabled_entry raw_config n = Some v ∧ deserialize v = Returns true.
Proof.
  unfold enables. rewrite classify_entry.
  destruct (enabled_entry raw_config n) as [v|] eqn:Hv.
  - split.
    + destruct (deserialize v) as [[]|] eqn:Hd; [|done..]. intros _.
      by exists v.
    + intros (v' & [= <-] & ->). done.
  - destruct (classify_missing deserialize raw_config n Hv) as [key ->].
    split; [done|]. by intros (v & ? & _).
Qed.

(** X13: when [filter_enabled_extensions] returns, an extension is in the
    result exactly when it is in the input and the 'enabled' entry of the
    section named after it deserializes to true. *)
Theorem enabled_iff_entry_true h exts out o :
  outcome_of (filter_enabled_extensions deserialize raw_config exts h) =
    Returns out →
  o ∈ out ↔
  o ∈ exts ∧
  ∃ v, enabled_entry raw_config (name_of h o) = Some v ∧
       deserialize v = Returns true.
Proof.
  intros (_ & _ & ->)%filter_returns.
  rewrite list_elem_of_filter, enables_iff. tauto.
Qed.

Lemma first_error_enabled h (l : list nat) :
  Forall (En h) l →
  first_error deserialize raw_config (name_of h <$> l) = None.
Proof.
  induction 1 as [|o l Ho _ IH]; [done|]. cbn. unfold enables in Ho.
  by destruct (classify deserialize raw_config (name_of h o)).
Qed.

(** X14: filtering is idempotent: filtering the list that
    [filter_enabled_extensions] returned, against the same configuration,
    returns that list again. *)
Theorem filter_enabled_extensions_idempotent h exts out :
  outcome_of (filter_enabled_extensions deserialize raw_config exts h) =
    Returns out →
  outcome_of (filter_enabled_extensions deserialize raw_config out h) =
    Returns out.
Proof.
  intros (Hlive & _ & ->)%filter_returns.
  assert (Hen : Forall (En h) (filter (En h) exts)).
  { apply Forall_forall. by intros o [Ho _]%list_elem_of_filter. }
  rewrite filter_enabled_extensions_run.
  - by rewrite (first_error_enabled h _ Hen), filter_all.
  - intros o [_ Hin]%list_elem_of_filter. by apply Hlive.
Qed.

Lemma first_error_app (l1 l2 : list (option string)) :
  first_error deserialize raw_config (l1 ++ l2) =
    match first_error deserialize raw_config l1 with
    | Some e => Some e
    | None => first_error deserialize raw_config l2
    end.
Proof.
  induction l1 as [|n l1 IH]; [done|]. cbn.
  by destruct (classify deserialize raw_config n).
Qed.

(** X15: a malformed 'enabled' value is not handled: when the pass reaches
    an extension whose entry the deserializer rejects, the deserializer's
    exception is the outcome of [filter_enabled_extensions]; nothing is
    logged or changed, and the extensions after it play no part in the
    run. *)
Theorem malformed_value_propagates h pre o post inst v e :
  returns_normally
    (outcome_of (filter_enabled_extensions deserialize raw_config pre h)) →
  h !! o = Some inst →
  enabled_entry raw_config (ext_name (class_of inst)) = Some v →
  deserialize v = Raises e →
  filter_enabled_extensions deserialize raw_config (pre ++ o :: post) h =
    Run h [] (Raises e) ∧
  filter_enabled_extensions deserialize raw_config (pre ++ o :: post) h =
    filter_enabled_extensions deserialize raw_config (pre ++ [o]) h.
Proof.
  intros Hpre Hl Hv Hd.
  destruct (outcome_of (filter_enabled_extensions deserialize raw_config pre h))
    as [out|] eqn:Hout; [|done].
  destruct (filter_returns h pre out Hout) as (Hlive & Hfe & _).
  assert (Hlive1 : live h (pre ++ [o])).
  { intros o' [?|Ho'%list_elem_of_singleton]%elem_of_app; [auto|].
    subst o'. by eexists. }
  assert (Hloop : for_in (pre ++ [o]) fstep ([], [], []) h =
                    Run h [] (Raises e)).
  { rewrite (filter_loop_run deserialize raw_config h _ [] [] [] Hlive1).
    rewrite fmap_app, first_error_app, Hfe. cbn. unfold name_of. rewrite Hl.
    by rewrite classify_entry, Hv, Hd. }
  assert (Hrun : ∀ rest,
    filter_enabled_extensions deserialize raw_config
      ((pre ++ [o]) ++ rest) h = Run h [] (Raises e)).
  { intros rest. unfold filter_enabled_extensions, filter_enabled_loop.
    rewrite bind_run.
    rewrite (for_in_raises_prefix (pre ++ [o]) rest fstep _ h e);
      by rewrite Hloop. }
  replace (pre ++ o :: post) with ((pre ++ [o]) ++ post)
    by (by rewrite <- app_assoc).
  split; [apply Hrun|].
  rewrite Hrun. specialize (Hrun []). rewrite app_nil_r in Hrun.
  by rewrite Hrun.
Qed.

Lemma or_none_nonempty s : or_none s ≠ "".
Proof. unfold or_none. by case_decide. Qed.

Lemma join_strings sep (l : list string) :
  join sep (Some <$> l) = Returns (String.concat sep l).
Proof. unfold join. by rewrite strings_of_Some. Qed.

(** X16: when [filter_enabled_extensions] returns, its whole trace is two
    informational records on the root logger: the names of the enabled
    extensions, then the names of the disabled ones, each joined by a comma
    and a space; a summary is never the empty string, and it reads
    ["none"] when the list of names is empty. *)
Theorem filter_enabled_extensions_summary h exts out :
  outcome_of (filter_enabled_extensions deserialize raw_config exts h) =
    Returns out →
  ∃ enabled disabled : list string,
    name_of h <$> out = Some <$> enabled ∧
    name_of h <$> filter (Dis h) exts = Some <$> disabled ∧
    trace_of (filter_enabled_extensions deserialize raw_config exts h) =
      [Log RootLogger INFO "Enabled extensions: %s"
         [VStr (or_none (String.concat ", " enabled))];
       Log RootLogger INFO "Disabled extensions: %s"
         [VStr (or_none (String.concat ", " disabled))]] ∧
    or_none (String.concat ", " enabled) ≠ "" ∧
    or_none (String.concat ", " disabled) ≠ "" ∧
    (out = [] → or_none (String.concat ", " enabled) = "none").
Proof.
  intros (Hlive & Hfe & ->)%filter_returns.
  destruct (strings_of_is_Some _
    (enabled_names_are_strings h _ exts
       (λ o, enables_name deserialize raw_config (name_of h o))))
    as [enabled Hen].
  destruct (strings_of_is_Some _
    (enabled_names_are_strings h _ exts
       (λ o, disables_name deserialize raw_config (name_of h o))))
    as [disabled Hdis].
  exists enabled, disabled. split_and!; [done|done| | | |].
  - unfold filter_enabled_extensions, filter_enabled_loop.
    rewrite bind_run, (filter_loop_run deserialize raw_config h exts [] [] [] Hlive).
    rewrite Hfe. cbn [app]. rewrite Hen, Hdis. munfold.
    by rewrite !join_strings.
  - apply or_none_nonempty.
  - apply or_none_nonempty.
  - intros Hnil. rewrite Hnil in Hen. destruct enabled; [done|]. done.
Qed.

Lemma filter_step_dangling h o acc :
  h !! o = None →
  fstep o acc h =
    Run h [] (Raises (PyException "ReferenceError" "dangling object")).
Proof.
  intros Hl. destruct acc as [[ee en] dn].
  unfold filter_enabled_extension. munfold. by rewrite Hl.
Qed.

End FilterFurther.

Lemma classify_same_enabled deserialize raw_config raw_config' n :
  (∀ s, n = Some s → same_enabled raw_config raw_config' s) →
  classify deserialize raw_config n = classify deserialize raw_config' n.
Proof.
  destruct n as [s|]; [|done]. intros Hs. specialize (Hs s eq_refl).
  unfold same_enabled in Hs. unfold classify.
  destruct (raw_config !! s) as [sec|], (raw_config' !! s) as [sec'|];
    cbn in Hs; try done.
  injection Hs as Hs. by rewrite Hs.
Qed.

Lemma filter_loop_same_enabled deserialize raw_config raw_config' h exts acc :
  (∀ o s, o ∈ exts → name_of h o = Some s →
          same_enabled raw_config raw_config' s) →
  for_in exts (filter_enabled_extension deserialize raw_config') acc h =
    for_in exts (filter_enabled_extension deserialize raw_config) acc h.
Proof.
  revert acc. induction exts as [|o exts IH]; intros acc Hsame; [done|].
  rewrite !for_in_cons.
  assert (Hstep : filter_enabled_extension deserialize raw_config' o acc h =
                  filter_enabled_extension deserialize raw_config o acc h).
  { destruct (h !! o) as [inst|] eqn:Hl.
    - destruct acc as [[ee en] dn].
      rewrite !(filter_step_run _ _ h o inst ee en dn Hl).
      rewrite (classify_same_enabled deserialize raw_config raw_config'); [done|].
      intros s Hs. apply (Hsame o); [by left|]. unfold name_of. by rewrite Hl.
    - by rewrite !filter_step_dangling. }
  rewrite Hstep.
  destruct (filter_step_heap deserialize raw_config h o acc) as [Hh _].
  destruct (filter_enabled_extension deserialize raw_config o acc h)
    as [h1 t1 [acc'|e]]; cbn in Hh; subst; [|done].
  rewrite IH; [done|]. intros o' s Hin. apply Hsame. by right.
Qed.

(** X17: the filter reads nothing but the 'enabled' entry of the sections
    named after the listed extensions: two configurations that agree on
    those entries give the same run, whatever other sections and other
    keys they hold. *)
Theorem filter_reads_only_enabled_entries
    deserialize raw_config raw_config' h exts :
  (∀ o s, o ∈ exts → name_of h o = Some s →
          same_enabled raw_config raw_config' s) →
  filter_enabled_extensions deserialize raw_config' exts h =
    filter_enabled_extensions deserialize raw_config exts h.
Proof.
  intros Hsame. unfold filter_enabled_extensions, filter_enabled_loop.
  rewrite !bind_run.
  by rewrite (filter_loop_same_enabled deserialize raw_config raw_config').
Qed.

Lemma enabled_iff_entry_true_witness :
  3 ∈ [0; 3] ↔
  3 ∈ [0; 2; 3] ∧
  ∃ v, enabled_entry example_config (name_of example_heap 3) = Some v ∧
       Boolean_deserialize v = Returns true.
Proof.
  apply (enabled_iff_entry_true Boolean_deserialize example_config
           example_heap [0; 2; 3] [0; 3] 3).
  vm_compute. reflexivity.
Defined.

Lemma filter_enabled_extensions_idempotent_witness :
  outcome_of (filter_enabled_extensions Boolean_deserialize example_config
                [0; 3] example_heap) = Returns [0; 3].
Proof.
  apply (filter_enabled_extensions_idempotent Boolean_deserialize
           example_config example_heap [0; 2; 3] [0; 3]).
  vm_compute. reflexivity.
Defined.

Lemma malformed_value_propagates_witness :
  filter_enabled_extensions Boolean_deserialize example_config
    ([0; 2] ++ 4 :: [3]) example_heap =
    Run example_heap [] (Raises (ValueError "invalid value for boolean")) ∧
  filter_enabled_extensions Boolean_deserialize example_config
    ([0; 2] ++ 4 :: [3]) example_heap =
  filter_enabled_extensions Boolean_deserialize example_config
    ([0; 2] ++ [4]) example_heap.
Proof.
  apply (malformed_value_propagates Boolean_deserialize example_config
           example_heap [0; 2] 4 [3]
           {| class_of := cls_x; entry_point := Some ep_x |} "maybe"
           (ValueError "invalid value for boolean"));
    [vm_compute; exact I|reflexivity|reflexivity|reflexivity].
Defined.

Lemma filter_enabled_extensions_summary_witness :
  ∃ enabled disabled : list string,
    name_of example_heap <$> [0; 3] = Some <$> enabled ∧
    name_of example_heap <$>
      filter (λ o, disables Boolean_deserialize example_config
                     (name_of example_heap o)) [0; 2; 3] = Some <$> disabled ∧
    trace_of (filter_enabled_extensions Boolean_deserialize example_config
                [0; 2; 3] example_heap) =
      [Log RootLogger INFO "Enabled extensions: %s"
         [VStr (or_none (String.concat ", " enabled))];
       Log RootLogger INFO "Disabled extensions: %s"
         [VStr (or_none (String.concat ", " disabled))]] ∧
    or_none (String.concat ", " enabled) ≠ "" ∧
    or_none (String.concat ", " disabled) ≠ "" ∧
    ([0; 3] = [] → or_none (String.concat ", " enabled) = "none").
Proof.
  apply (filter_enabled_extensions_summary Boolean_deserialize example_config
           example_heap [0; 2; 3] [0; 3]).
  vm_compute. reflexivity.
Defined.

Lemma filter_reads_only_enabled_entries_witness :
  filter_enabled_extensions Boolean_deserialize example_config' [0; 2; 3]
    example_heap =
  filter_enabled_extensions Boolean_deserialize example_config [0; 2; 3]
    example_heap.
Proof.
  apply (filter_reads_only_enabled_entries Boolean_deserialize example_config
           example_config' example_heap [0; 2; 3]).
  intros o s Ho Hn. each_member Ho;
    vm_compute in Hn; injection Hn as <-; vm_compute; reflexivity.
Defined.

(** ** Validation followed by filtering *)

(** X18: when validation and then filtering both return, an extension ends
    up enabled exactly when it is in the input, passes the three checks,
    and the section named like its entry point has an 'enabled' entry that
    deserializes to true. *)
Theorem enabled_after_validation deserialize raw_config h exts valid enabled o :
  outcome_of (validate_extensions exts h) = Returns valid →
  outcome_of (filter_enabled_extensions deserialize raw_config valid h) =
    Returns enabled →
  o ∈ enabled ↔
  o ∈ exts ∧
  ∃ inst ep v,
    h !! o = Some inst ∧ passes_checks inst ∧ entry_point inst = Some ep ∧
    enabled_entry raw_config (Some (ep_name ep)) = Some v ∧
    deserialize v = Returns true.
Proof.
  intros (-> & _)%validate_extensions_returns (_ & _ & ->)%filter_returns.
  rewrite !list_elem_of_filter, enables_iff. unfold accepts, accepted, name_of.
  split.
  - intros [(v & Hv & Hd) [Ha Hin]]. split; [done|].
    destruct (h !! o) as [inst|]; [|done].
    assert (Hp : passes_checks inst).
    { apply check_accept_iff. by destruct (check inst). }
    destruct Hp as (ep & He & Hn & Hr & Henv).
    exists inst, ep, v. rewrite <- Hn.
    split_and!; [done|by exists ep|done..].
  - intros [Hin (inst & ep & v & -> & Hp & He & Hv & Hd)].
    pose proof Hp as (ep' & He' & Hn & _). simplify_eq.
    apply check_accept_iff in Hp. rewrite Hp, Hn.
    split; [by exists v|done].
Qed.

Lemma enabled_after_validation_witness :
  0 ∈ [0] ↔
  0 ∈ [0; 1; 2; 3] ∧
  ∃ inst ep v,
    example_heap !! 0 = Some inst ∧ passes_checks inst ∧
    entry_point inst = Some ep ∧
    enabled_entry example_config (Some (ep_name ep)) = Some v ∧
    Boolean_deserialize v = Returns true.
Proof.
  apply (enabled_after_validation Boolean_deserialize example_config
           example_heap [0; 1; 2; 3] [0] [0] 0); vm_compute; reflexivity.
Defined.

(** X19: filtering works through a list part by part: for live objects the
    outcome on [l1 ++ l2] is the exception of [l1] if it raises, else the
    exception of [l2] if it raises, else the two results appended. *)
Theorem filter_enabled_extensions_app deserialize raw_config h l1 l2 :
  live h (l1 ++ l2) →
  outcome_of (filter_enabled_extensions deserialize raw_config (l1 ++ l2) h) =
    outcome_app
      (outcome_of (filter_enabled_extensions deserialize raw_config l1 h))
      (outcome_of (filter_enabled_extensions deserialize raw_config l2 h)).
Proof.
  intros Hlive.
  assert (Hl1 : live h l1).
  { intros o Ho. apply Hlive, elem_of_app. by left. }
  assert (Hl2 : live h l2).
  { intros o Ho. apply Hlive, elem_of_app. by right. }
  rewrite !filter_enabled_extensions_run by done.
  rewrite fmap_app, first_error_app.
  destruct (first_error deserialize raw_config (name_of h <$> l1)); [done|].
  destruct (first_error deserialize raw_config (name_of h <$> l2)); [done|].
  cbn. by rewrite filter_app.
Qed.

Lemma filter_enabled_extensions_app_witness :
  outcome_of (filter_enabled_extensions Boolean_deserialize example_config
                ([0; 2] ++ [3; 1]) example_heap) =
    outcome_app
      (outcome_of (filter_enabled_extensions Boolean_deserialize
                     example_config [0; 2] example_heap))
      (outcome_of (filter_enabled_extensions Boolean_deserialize
                     example_config [3; 1] example_heap)).
Proof.
  apply (filter_enabled_extensions_app Boolean_deserialize example_config
           example_heap [0; 2] [3; 1]).
  intros o Ho. cbn in Ho. each_member Ho; eexists; reflexivity.
Defined.
